(** * Smart Sketch uploader: a shallow embedding of [smartsketch-upload.py]

    The development follows the source file top to bottom: the notification
    handler, the polling wait, the image preparation, the 5-6-5 packer, the
    chunk framer, the upload session, the device filter and the argument
    checks of [main].

    Conventions.
    - Python integers are [Z]; sizes and loop indices that the source only ever
      obtains from [len], [range] or an image size are [nat].
    - A [bytes] of pixel data is a [list Z] of values in [0, 256).
    - A notification payload is a byte string, written as a [string] (one
      [ascii] is one byte); decoded text is a [string] of 7-bit characters.
    - The event-loop clock advances in whole milliseconds; what the loop
      reads from it is the binary64 number of seconds ([reading]).
    - A [str] that need not be 7-bit (a device name, a path) is held as its
      UTF-8 bytes; [str.lower] on it is an interface ([Unicode]).
    - The BLE client (bleak) and the image library (Pillow) are external; the
      first is an explicit environment script, the second an interface. *)

From Stdlib Require Import ZArith List Bool Ascii String Lia Arith.
From Stdlib Require Import PrimFloat.
Import ListNotations.

Open Scope Z_scope.

(* ================================================================== *)
(** ** Python built-ins used by the source *)

Module Py.

(** [for x in xs: body] over a state that the body may abort with an
    exception ([None]). *)
Fixpoint for_each {A S : Type} (xs : list A) (body : A -> S -> option S) (s : S)
  : option S :=
  match xs with
  | [] => Some s
  | x :: xs' =>
      match body x s with
      | Some s' => for_each xs' body s'
      | None => None
      end
  end.

(** [range(n)] *)
Definition range (n : nat) : list nat := seq 0 n.

(** [range(0, stop, step)]: [ValueError] for a zero step, empty for a negative
    one, otherwise 0, step, 2*step, ... below [stop]. *)
Definition range_step (stop : nat) (step : Z) : option (list nat) :=
  if step =? 0 then None
  else if step <? 0 then Some []
  else
    let k := Z.to_nat step in
    Some (map (fun j => (j * k)%nat) (seq 0 ((stop + k - 1) / k)%nat)).

(** [data[i:j]] for [0 <= i] and [0 <= j]. *)
Definition slice {A : Type} (data : list A) (i j : nat) : list A :=
  firstn (j - i) (skipn i data).

(** [bytes([v0, v1, ...])]: [ValueError] unless every value is in range(256). *)
Definition bytes_of (vs : list Z) : option (list Z) :=
  if forallb (fun v => (0 <=? v) && (v <? 256)) vs then Some vs else None.

(** A [bytearray] under construction is kept newest byte first, so that
    [append] is one step; [bytes(b)] and [bytearray(data)] convert from and
    to the usual oldest-first order. *)
Definition bytearray := list Z.

(** [b.append(v)], for [v] in range(256) *)
Definition append (b : bytearray) (v : Z) : bytearray := v :: b.

(** [bytes(b)] *)
Definition bytes (b : bytearray) : list Z := rev_append b [].

(** [data.reverse()] on a sequence held oldest first. *)
Definition reverse {A : Type} (data : list A) : list A := rev_append data [].

(** [enumerate(xs)] *)
Definition enumerate {A : Type} (xs : list A) : list (nat * A) :=
  combine (seq 0 (List.length xs)) xs.

(** *** Text *)

(** [str.isspace] on a 7-bit character: TAB, LF, VT, FF, CR, FS, GS, RS, US
    and SPACE. *)
Definition isspace (c : ascii) : bool :=
  let n := nat_of_ascii c in
  ((9 <=? n) && (n <=? 13) || (28 <=? n) && (n <=? 32))%nat.

Fixpoint lstrip (s : string) : string :=
  match s with
  | EmptyString => EmptyString
  | String c s' => if isspace c then lstrip s' else s
  end.

Fixpoint string_rev (s : string) : string :=
  match s with
  | EmptyString => EmptyString
  | String c s' => (string_rev s' ++ String c EmptyString)%string
  end.

Definition rstrip (s : string) : string := string_rev (lstrip (string_rev s)).

(** [s.strip()] *)
Definition strip (s : string) : string := rstrip (lstrip s).

(** Truth value of a [str]. *)
Definition truthy (s : string) : bool :=
  match s with EmptyString => false | _ => true end.

(** [c.lower()] for one character of 7-bit text. *)
Definition lower_char (c : ascii) : ascii :=
  let n := nat_of_ascii c in
  if ((65 <=? n) && (n <=? 90))%nat then ascii_of_nat (n + 32) else c.

(** [s.lower()] for 7-bit text: decoded notification text and the literals
    of the source. *)
Fixpoint lower (s : string) : string :=
  match s with
  | EmptyString => EmptyString
  | String c s' => String (lower_char c) (lower s')
  end.

(** [s.isascii()] *)
Fixpoint isascii (s : string) : bool :=
  match s with
  | EmptyString => true
  | String c s' => (nat_of_ascii c <? 128)%nat && isascii s'
  end.

(** [needle in hay] *)
Fixpoint contains (needle hay : string) : bool :=
  String.prefix needle hay
  || match hay with
     | EmptyString => false
     | String _ hay' => contains needle hay'
     end.

(** [data.decode('ascii', errors='ignore')]: bytes above 127 are dropped. *)
Fixpoint decode_ascii_ignore (data : string) : string :=
  match data with
  | EmptyString => EmptyString
  | String c data' =>
      if (nat_of_ascii c <? 128)%nat
      then String c (decode_ascii_ignore data')
      else decode_ascii_ignore data'
  end.

End Py.

(* ================================================================== *)
(** ** Case mapping of Unicode text

    A device name, a command-line argument and the [expected] argument of
    [wait_for_response] are arbitrary [str] values.  [str.lower] is
    Python's full Unicode case mapping (it sends U+212A KELVIN SIGN to [k],
    for one); it enters as an interface, with the one law that ties it to
    the literals of the source: on 7-bit text it is [Py.lower]. *)

Class Unicode := {
  str_lower : string -> string       (* s.lower(), on UTF-8 bytes *)
}.

Class UnicodeSpec (U : Unicode) : Prop := {
  str_lower_ascii : forall s, Py.isascii s = true -> str_lower s = Py.lower s
}.


(* ================================================================== *)
(** ** Images (the part of Pillow the source relies on) *)

(** A decoded image: its [mode] string, its [size] as (width, height) and the
    pixel access object returned by [img.load()], indexed [pixels[x, y]].  A
    pixel is the tuple of its band values. *)
Record Image := {
  mode : string;
  size : nat * nat;
  load : nat -> nat -> list Z
}.

(** The two Pillow operations called by the source: [img.convert(mode)] and
    [img.resize(size, Image.Resampling.LANCZOS)]. *)
Class Pillow := {
  convert : Image -> string -> Image;
  resize : Image -> nat * nat -> Image
}.

(** Every pixel inside the image is a triple of 8-bit band values, as Pillow
    guarantees for an image whose mode is RGB. *)
Definition rgb_pixels (img : Image) : Prop :=
  forall x y, (x < fst (size img))%nat -> (y < snd (size img))%nat ->
    exists r g b, load img x y = [r; g; b]
      /\ 0 <= r < 256 /\ 0 <= g < 256 /\ 0 <= b < 256.

(** The invariant of a Pillow image that the source relies on: when the mode
    is RGB the pixels are RGB triples. *)
Definition well_formed (img : Image) : Prop :=
  mode img = "RGB"%string -> rgb_pixels img.

(** Pillow's documented behaviour, as far as the source depends on it:
    [convert] keeps the size and yields the requested mode; [resize] keeps the
    mode and yields the requested size; both return images that satisfy the
    invariant. *)
Class PillowSpec (P : Pillow) : Prop := {
  convert_well_formed : forall img m, well_formed img -> well_formed (convert img m);
  convert_mode : forall img m, mode (convert img m) = m;
  convert_size : forall img m, size (convert img m) = size img;
  resize_well_formed : forall img sz, well_formed img -> well_formed (resize img sz);
  resize_mode : forall img sz, mode (resize img sz) = mode img;
  resize_size : forall img sz, size (resize img sz) = sz
}.

Definition DEVICE_WIDTH : nat := 160.
Definition DEVICE_HEIGHT : nat := 120.

(** ** Console output

    One constructor per [print] call of the uploader, with the formatted
    values as arguments. *)
Inductive Line :=
| LDevice (text : string)                 (* "  Device: {text}" *)
| LLoading                                (* "\nLoading image: {image_path}" *)
| LOriginalSize (sz : nat * nat)          (* "  Original size: {img.size}" *)
| LConverting (m : string)                (* "  Converting from {img.mode} to RGB..." *)
| LResizing (w h : nat)                   (* "  Resizing to {w}x{h}..." *)
| LRule                                   (* "="*70 *)
| LTitle                                  (* "SMART SKETCH - UNAUTHENTICATED IMAGE UPLOAD" *)
| LDataBytes (n : nat)                    (* "  RGB565 data: {n} bytes" *)
| LTotalChunks (n : nat)                  (* "  Total chunks: {n}" *)
| LSending                                (* "\nSending COMMAND_SEND_IMAGE..." *)
| LFailedOK                               (* "Failed to get OK for command" *)
| LDeviceReady                            (* "  Device ready" *)
| LUploading (n : nat)                    (* "\nUploading {n} chunks..." *)
| LProgress (i n : nat)                   (* "  Progress: {i}/{n} (..%)" *)
| LAllSent                                (* "  All chunks sent" *)
| LWaiting                                (* "\nWaiting for device to process..." *)
| LBlankRule                              (* "\n" + "="*70 *)
| LUploaded                               (* "IMAGE SUCCESSFULLY UPLOADED!" *)
| LCheckProjector                         (* "\nCheck the Smart Sketch projector!" *)
| LNoDone                                 (* "\n  Upload completed but didn't receive 'Done'" *)
| LNormal.                                (* "   (This is normal - check if the image appeared on the projector)" *)

(* ================================================================== *)
(** ** Image transcoder *)

Definition size_eqb (a b : nat * nat) : bool :=
  (fst a =? fst b)%nat && (snd a =? snd b)%nat.

(** [load_and_prepare_image], applied to the image that [Image.open] returned;
    the result carries the lines printed on the way. *)
Definition load_and_prepare_image `{Pillow} (img : Image)
    (target_width target_height : nat) : list Line * Image :=
  let out := [LLoading; LOriginalSize (size img)] in
  (* convert to rgb *)
  let '(out, img) :=
    if negb (String.eqb (mode img) "RGB")
    then (out ++ [LConverting (mode img)], convert img "RGB"%string)
    else (out, img) in
  (* resize to fit smart sketch display *)
  let '(out, img) :=
    if negb (size_eqb (size img) (target_width, target_height))
    then (out ++ [LResizing target_width target_height],
          resize img (target_width, target_height))
    else (out, img) in
  (out, img).

(** The body of the pixel loop of [rgb_to_rgb565]: unpack the pixel (an
    exception unless it has exactly three bands), quantize, pack and append
    the two bytes to the bytearray. *)
Definition rgb565_pixel (pixel : list Z) (rgb565_data : Py.bytearray)
  : option Py.bytearray :=
  match pixel with
  | [r; g; b] =>
      let r5 := Z.land (Z.shiftr r 3) 0x1F in
      let g6 := Z.land (Z.shiftr g 2) 0x3F in
      let b5 := Z.land (Z.shiftr b 3) 0x1F in
      let rgb565 := Z.lor (Z.lor (Z.shiftl r5 11) (Z.shiftl g6 5)) b5 in
      let rgb565_data := Py.append rgb565_data (Z.land rgb565 0xFF) in
      let rgb565_data := Py.append rgb565_data (Z.land (Z.shiftr rgb565 8) 0xFF) in
      Some rgb565_data
  | _ => None
  end.

Definition rgb_to_rgb565 (img : Image) : option (list Z) :=
  let '(width, height) := size img in
  let pixels := load img in
  let rgb565_data : Py.bytearray := [] in
  option_map Py.bytes
    (Py.for_each (Py.range height) (fun y rgb565_data =>
       Py.for_each (Py.range width) (fun x rgb565_data =>
         rgb565_pixel (pixels x y) rgb565_data) rgb565_data) rgb565_data).

(** ** Chunk framer *)

Definition prepare_chunks (rgb565_data : list Z) (chunk_size : Z)
  : option (list (list Z)) :=
  let data := Py.reverse rgb565_data in
  match Py.range_step (List.length data) chunk_size with
  | None => None
  | Some indices =>
      Some (fold_left
              (fun chunks i =>
                 chunks ++ [Py.slice data i (i + Z.to_nat chunk_size)])
              indices [])
  end.

(* ================================================================== *)
(** ** The BLE client and the event loop

    The client is external.  Its behaviour during one run is given by a
    script: the [n]-th [await] of the run takes [elapsed] further
    milliseconds beyond what was asked for, receives the notification
    payloads [arrivals] from the device, and, when it is a client call,
    raises iff [fails].  Code between two awaits takes no time. *)

Record Tick := {
  elapsed : N;
  arrivals : list string;
  fails : bool
}.

Definition Env := nat -> Tick.

(** Calls that reached the client, oldest first. *)
Inductive Event :=
| EvWrite (data : list Z) (response : bool)   (* write_gatt_char(CHAR_UUID, data, response) *)
| EvStartNotify                               (* start_notify(CHAR_UUID, handler) *)
| EvStopNotify.                               (* stop_notify(CHAR_UUID) *)

Record State := {
  clock : Z;                  (* loop.time(), in ms *)
  awaits : nat;               (* awaits completed so far *)
  subscribed : bool;          (* a notification callback is registered *)
  responses : list string;    (* self.responses *)
  transport : list Event;     (* what the client was asked to do *)
  console : list Line         (* what was printed *)
}.

Inductive Exn :=
| UnpackError     (* a pixel that is not a 3-tuple *)
| ValueError      (* range() step of zero, byte out of range(256) *)
| BleakError.     (* raised by the client *)

Inductive Res (A : Type) :=
| Ok (a : A)
| Raise (e : Exn)
| Diverge.        (* the model's iteration bound was reached *)
Arguments Ok {A} a.
Arguments Raise {A} e.
Arguments Diverge {A}.

Definition M (A : Type) : Type := Env -> State -> Res A * State.

Definition ret {A} (a : A) : M A := fun _ st => (Ok a, st).

Definition bind {A B} (m : M A) (f : A -> M B) : M B :=
  fun env st =>
    match m env st with
    | (Ok a, st') => f a env st'
    | (Raise e, st') => (Raise e, st')
    | (Diverge, st') => (Diverge, st')
    end.

Declare Scope m_scope.
Delimit Scope m_scope with M.
Notation "x <- m ;; k" := (bind m (fun x => k))
  (at level 61, m at next level, right associativity) : m_scope.
Notation "m ;; k" := (bind m (fun _ => k))
  (at level 61, right associativity) : m_scope.
Open Scope m_scope.

(** A pure computation that may raise. *)
Definition lift {A} (e : Exn) (o : option A) : M A :=
  fun _ st => match o with Some a => (Ok a, st) | None => (Raise e, st) end.

(** [for x in xs: body] with awaits in the body. *)
Fixpoint for_each_m {A} (xs : list A) (body : A -> M unit) : M unit :=
  match xs with
  | [] => ret tt
  | x :: xs' => body x ;; for_each_m xs' body
  end.

Definition print (lines : list Line) : M unit :=
  fun _ st =>
    (Ok tt, {| clock := clock st; awaits := awaits st; subscribed := subscribed st;
               responses := responses st; transport := transport st;
               console := console st ++ lines |}).

(** [asyncio.get_event_loop().time()] *)
Definition time : M Z := fun _ st => (Ok (clock st), st).

(** *** What the loop reads from the clock

    [time()] returns a binary64 number of seconds: for a clock at [ms]
    milliseconds, the binary64 nearest to [ms / 1000]. *)

Fixpoint float_of_pos (p : positive) : float :=
  match p with
  | xH => 1%float
  | xO p' => (2 * float_of_pos p')%float
  | xI p' => (2 * float_of_pos p' + 1)%float
  end.

Definition float_of_Z (z : Z) : float :=
  match z with
  | Z0 => 0%float
  | Zpos p => float_of_pos p
  | Zneg p => (- float_of_pos p)%float
  end.

Definition reading (ms : Z) : float := (float_of_Z ms / 1000)%float.

(** The loop condition [time() - start < timeout] of the two waiting loops,
    for a clock at [now] ms, a [start] read at [start] ms and a timeout of
    [timeout] ms.  The subtraction is binary64 subtraction, which rounds.
    On the clock of a running machine (seconds since boot) a reading is
    wrong by far less than a millisecond, so the rounded difference lies on
    the same side of the timeout as the exact one, unless the exact
    difference is the timeout itself: there the binary64 operations decide
    (16.016 - 6.016 is 9.999999999999998, which is below 10, and the loop
    makes one more pass).  The difference of two equal readings is exactly
    zero. *)
Definition window_open (now start timeout : Z) : bool :=
  let elapsed := now - start in
  if elapsed =? timeout
  then (0 <? timeout)
       && PrimFloat.ltb (PrimFloat.sub (reading now) (reading start))
                        (reading timeout)
  else elapsed <? timeout.

(** *** The notification handler *)

(** [_notification_handler(sender, data)].  Decoding with [errors='ignore']
    cannot raise, so the [except] branch is never taken. *)
Definition _notification_handler (data : string) (st : State) : State :=
  let text := Py.decode_ascii_ignore data in
  if Py.truthy (Py.strip text)
  then {| clock := clock st; awaits := awaits st; subscribed := subscribed st;
          responses := responses st ++ [text]; transport := transport st;
          console := console st ++ [LDevice text] |}
  else st.

(** The callbacks that run while the coroutine is suspended. *)
Definition deliver (payloads : list string) (st : State) : State :=
  if subscribed st
  then fold_left (fun s data => _notification_handler data s) payloads st
  else st.

(** *** Awaited operations *)

Definition advance (ms : Z) (t : Tick) (st : State) : State :=
  {| clock := clock st + ms + Z.of_N (elapsed t); awaits := S (awaits st);
     subscribed := subscribed st; responses := responses st;
     transport := transport st; console := console st |}.

Definition record_call (ev : Event) (sub : bool) (st : State) : State :=
  {| clock := clock st; awaits := awaits st; subscribed := sub;
     responses := responses st; transport := transport st ++ [ev];
     console := console st |}.

(** [await asyncio.sleep(ms / 1000)] *)
Definition sleep (ms : Z) : M unit :=
  fun env st =>
    let t := env (awaits st) in
    (Ok tt, deliver (arrivals t) (advance ms t st)).

(** [await self.client.write_gatt_char(CHAR_UUID, data, response=response)] *)
Definition write_gatt_char (data : list Z) (response : bool) : M unit :=
  fun env st =>
    let t := env (awaits st) in
    let st := deliver (arrivals t) (advance 0 t st) in
    if fails t then (Raise BleakError, st)
    else (Ok tt, record_call (EvWrite data response) (subscribed st) st).

(** [await self.client.start_notify(CHAR_UUID, self._notification_handler)]:
    payloads that arrive while the call completes already reach the
    handler. *)
Definition start_notify : M unit :=
  fun env st =>
    let t := env (awaits st) in
    let st := advance 0 t st in
    if fails t then (Raise BleakError, deliver (arrivals t) st)
    else (Ok tt, deliver (arrivals t) (record_call EvStartNotify true st)).

(** [await self.client.stop_notify(CHAR_UUID)]: payloads that arrive before
    the call completes still reach the handler. *)
Definition stop_notify : M unit :=
  fun env st =>
    let t := env (awaits st) in
    let st := deliver (arrivals t) (advance 0 t st) in
    if fails t then (Raise BleakError, st)
    else (Ok tt, record_call EvStopNotify false st).

(* ================================================================== *)
(** ** Upload session *)

(** The [while] loop of [wait_for_response].  One unit of [fuel] is spent per
    pass; [wait_for_response] supplies enough of it. *)
Fixpoint wait_loop `{Unicode} (fuel : nat) (expected : string)
    (timeout start : Z) : M bool :=
  fun env st =>
    if window_open (clock st) start timeout then
      if existsb (fun response =>
                    Py.contains (str_lower expected) (str_lower response))
                 (responses st)
      then (stop_notify ;; ret true) env st
      else
        match fuel with
        | O => (Diverge, st)
        | S fuel' =>
            (sleep 100 ;; wait_loop fuel' expected timeout start) env st
        end
    else (stop_notify ;; ret false) env st.

(** [wait_for_response(expected, timeout)], [timeout] in milliseconds. *)
Definition wait_for_response `{Unicode} (expected : string) (timeout : Z)
  : M bool :=
  start_notify ;;
  start <- time ;;
  wait_loop (S (Z.to_nat timeout)) expected timeout start.

(** The completion [while] loop at the end of [upload_image], with the
    statements that follow it. *)
Fixpoint completion_loop `{Unicode} (fuel : nat) (start : Z) : M bool :=
  fun env st =>
    if window_open (clock st) start 20000 then
      if existsb (fun response => Py.contains "done" (str_lower response))
                 (responses st)
      then (stop_notify ;;
            print [LBlankRule; LUploaded; LRule; LCheckProjector] ;;
            ret true) env st
      else
        match fuel with
        | O => (Diverge, st)
        | S fuel' => (sleep 100 ;; completion_loop fuel' start) env st
        end
    else (stop_notify ;; print [LNoDone; LNormal] ;; ret true) env st.

(** [upload_image], first part: prepare the image and the chunks and send the
    command frame. *)
Definition send_command `{Pillow} (img : Image) (chunk_size : Z)
  : M (list (list Z)) :=
  print [LRule; LTitle; LRule] ;;
  (* Load and prepare image *)
  let '(out, img) := load_and_prepare_image img DEVICE_WIDTH DEVICE_HEIGHT in
  print out ;;
  (* Convert to RGB565 *)
  rgb565_data <- lift UnpackError (rgb_to_rgb565 img) ;;
  print [LDataBytes (List.length rgb565_data)] ;;
  (* Prepare chunks *)
  chunks <- lift ValueError (prepare_chunks rgb565_data chunk_size) ;;
  print [LTotalChunks (List.length chunks)] ;;
  (* Send command, 0x01 is SEND_IMAGE command *)
  print [LSending] ;;
  command <- lift ValueError
               (Py.bytes_of [0x01; 0x00; 0x00; 0x00; chunk_size; 0x00; 0x02; 0x00]) ;;
  write_gatt_char command false ;;
  ret chunks.

(** [upload_image], the transfer: listen, write every chunk, pace. *)
Definition send_chunks (chunks : list (list Z)) : M unit :=
  (* Start listening *)
  start_notify ;;
  (* Send all chunks *)
  print [LUploading (List.length chunks)] ;;
  for_each_m (Py.enumerate chunks) (fun '(i, chunk) =>
    (if (i mod 50 =? 0)%nat then print [LProgress i (List.length chunks)]
     else ret tt) ;;
    write_gatt_char chunk false ;;
    sleep 10) ;;
  print [LProgress (List.length chunks) (List.length chunks)] ;;
  print [LAllSent].

(** [upload_image], last part: wait for completion. *)
Definition await_completion `{Unicode} : M bool :=
  print [LWaiting] ;;
  start <- time ;;
  completion_loop (S (Z.to_nat 20000)) start.

Definition upload_image `{Pillow} `{Unicode} (img : Image) (chunk_size : Z)
  : M bool :=
  chunks <- send_command img chunk_size ;;
  ok <- wait_for_response "OK" 10000 ;;
  if negb ok then
    print [LFailedOK] ;;
    ret false
  else
    print [LDeviceReady] ;;
    send_chunks chunks ;;
    await_completion.

(* ================================================================== *)
(** ** Device locator (the scan filter of [main]) *)

(** A discovered device: [d.name] may be [None]. *)
Record BLEDevice := {
  name : option string;
  address : string
}.

(** The condition of the [if] inside the scan loop.  The needles are 7-bit,
    so [in] on the UTF-8 bytes finds what [in] on the characters finds. *)
Definition is_smart_sketch `{Unicode} (d : BLEDevice) : bool :=
  match name d with
  | None => false
  | Some n =>
      Py.truthy n
      && Py.contains "smart" (str_lower n)
      && Py.contains "sketch" (str_lower n)
  end.

(** The scan loop: [smart_sketch] is the first device that passes, [None]
    when the loop ends without a [break]. *)
Fixpoint find_smart_sketch `{Unicode} (devices : list BLEDevice)
  : option BLEDevice :=
  match devices with
  | [] => None
  | d :: devices' =>
      if is_smart_sketch d then Some d else find_smart_sketch devices'
  end.

(* ================================================================== *)
(** ** The command line ([main])

    [main] up to the point where it opens the connection.  The two
    [os.path] functions are external, and so is the scan: [devices] is what
    [BleakScanner.discover] returns when [main] gets that far. *)

Class OsPath := {
  path_exists : string -> bool;             (* os.path.exists *)
  splitext : string -> string * string      (* os.path.splitext *)
}.

(** What [main] prints. *)
Inductive MainLine :=
| MUsage                                  (* the usage text *)
| MFileNotFound (image_path : string)     (* "Error: File not found: {image_path}" *)
| MUnsupported (file_ext : string)        (* "Error: Unsupported file format: {file_ext}" *)
| MSupported                              (* "Supported formats: PNG, JPG, JPEG" *)
| MBanner                                 (* the title between two rules *)
| MImageFile (image_path : string)        (* "\nImage file: {image_path}" *)
| MScanning                               (* "\nScanning for Smart Sketch..." *)
| MFound (d : BLEDevice)                  (* "Found: {d.name} ({d.address})" *)
| MNotFound                               (* "Device not found!" and the hints *)
| MConnecting.                            (* "\nConnecting..." *)

(** How [main] goes on. *)
Inductive MainStep :=
| SysExit (code : Z)                        (* sys.exit(code) *)
| Return                                    (* return, no device *)
| Connect (address image_path : string).    (* BleakClient(address), then
                                               upload_image(image_path) *)

Definition main `{OsPath} `{Unicode} (argv : list string)
    (devices : list BLEDevice) : list MainLine * MainStep :=
  if (List.length argv <? 2)%nat then ([MUsage], SysExit 1)
  else
    let image_path := nth 1 argv ""%string in
    if negb (path_exists image_path)
    then ([MFileNotFound image_path], SysExit 1)
    else
      (* Check file extension *)
      let file_ext := str_lower (snd (splitext image_path)) in
      if negb (existsb (String.eqb file_ext)
                       [".png"; ".jpg"; ".jpeg"]%string)
      then ([MUnsupported file_ext; MSupported], SysExit 1)
      else
        let out := [MBanner; MImageFile image_path; MScanning] in
        (* Find device *)
        match find_smart_sketch devices with
        | None => (out ++ [MNotFound], Return)
        | Some smart_sketch =>
            (out ++ [MFound smart_sketch; MConnecting],
             Connect (address smart_sketch) image_path)
        end.

(* ================================================================== *)
(** ** The specification's vocabulary *)

(** The packing rule as the specification words it:
    [(red >> 3) << 11 | (green >> 2) << 5 | (blue >> 3)]. *)
Definition spec_pack565 (r g b : Z) : Z :=
  Z.lor (Z.lor (Z.shiftl (Z.shiftr r 3) 11) (Z.shiftl (Z.shiftr g 2) 5))
        (Z.shiftr b 3).

(** Low and high byte of a 16-bit value. *)
Definition low_byte (v : Z) : Z := v mod 256.
Definition high_byte (v : Z) : Z := v / 256.

(** The two bytes the specification asks for per pixel, low byte first. *)
Definition spec_pixel_bytes (pixel : list Z) : list Z :=
  match pixel with
  | [r; g; b] => [low_byte (spec_pack565 r g b); high_byte (spec_pack565 r g b)]
  | _ => []
  end.

(** Row-major scan: rows top to bottom, each row left to right. *)
Definition spec_rgb565 (img : Image) : list Z :=
  flat_map (fun y => flat_map (fun x => spec_pixel_bytes (load img x y))
                              (seq 0 (fst (size img))))
           (seq 0 (snd (size img))).

(** Reading a little-endian byte pair back as a 16-bit value. *)
Definition rgb565_of_bytes (lo hi : Z) : Z := Z.lor lo (Z.shiftl hi 8).

(** Unpacking as the specification words it: each field shifted back to
    8 bits. *)
Definition spec_unpack565 (v : Z) : Z * Z * Z :=
  (Z.shiftl (Z.land (Z.shiftr v 11) 0x1F) 3,
   Z.shiftl (Z.land (Z.shiftr v 5) 0x3F) 2,
   Z.shiftl (Z.land v 0x1F) 3).

(** The command frame of the wire protocol. *)
Definition spec_command_frame (chunk_size : Z) : list Z :=
  [0x01; 0x00; 0x00; 0x00; chunk_size; 0x00; 0x02; 0x00].

(** The log contains [word] case-insensitively ([word] given in lower case). *)
Definition log_has `{Unicode} (word : string) (st : State) : bool :=
  existsb (fun response => Py.contains word (str_lower response)) (responses st).

(** The state a waiting loop sees at its [k]-th poll when it started polling
    in [st]: [k] sleeps of 100 ms later. *)
Fixpoint poll (env : Env) (k : nat) (st : State) : State :=
  match k with
  | O => st
  | S k' => poll env k' (snd (sleep 100 env st))
  end.


(** The record of client calls of [st'] continues that of [st]. *)
Definition extends (st st' : State) : Prop :=
  exists evs, transport st' = transport st ++ evs.

(** The chunk writes among the client calls. *)
Definition writes_of (evs : list Event) : list (list Z * bool) :=
  flat_map (fun ev => match ev with
                      | EvWrite data response => [(data, response)]
                      | _ => []
                      end) evs.


(** The [j]-th piece of [data] cut into pieces of [k] elements. *)
Definition chunk_at {A} (k : nat) (data : list A) (j : nat) : list A :=
  firstn k (skipn (j * k) data).

(** The common shape of the two waiting loops of the session: while the
    window of [timeout] ms since [start] is open, leave through [on_found]
    as soon as [found] holds of the state, else sleep 100 ms; leave through
    [on_timeout] once the window has closed. *)
Fixpoint poll_until (fuel : nat) (found : State -> bool) (timeout start : Z)
    (on_found on_timeout : M bool) : M bool :=
  fun env st =>
    if window_open (clock st) start timeout then
      if found st then on_found env st
      else
        match fuel with
        | O => (Diverge, st)
        | S fuel' =>
            (sleep 100 ;;
             poll_until fuel' found timeout start on_found on_timeout) env st
        end
    else on_timeout env st.

(* ================================================================== *)
(** ** Concrete inputs used in examples *)

Module Examples.

Open Scope string_scope.

(** A device-sized RGB image of one colour. *)
Definition solid (r g b : Z) : Image :=
  {| mode := "RGB"; size := (DEVICE_WIDTH, DEVICE_HEIGHT);
     load := fun _ _ => [r; g; b] |}.

(** A 2 x 1 greyscale image. *)
Definition grey_2x1 : Image :=
  {| mode := "L"; size := (2%nat, 1%nat);
     load := fun x _ => if (x =? 0)%nat then [10] else [200] |}.

Definition clamp (v : Z) : Z := Z.max 0 (Z.min 255 v).

Definition to_rgb (pixel : list Z) : list Z :=
  match pixel with
  | [r; g; b] => [clamp r; clamp g; clamp b]
  | v :: _ => [clamp v; clamp v; clamp v]
  | [] => [0; 0; 0]
  end.

(** A small stand-in for Pillow: band expansion for [convert], nearest
    neighbour for [resize]. *)
#[export] Instance nearest : Pillow := {|
  convert := fun img m =>
    {| mode := m; size := size img;
       load := fun x y =>
         if String.eqb m "RGB" then to_rgb (load img x y) else load img x y |};
  resize := fun img sz =>
    {| mode := mode img; size := sz;
       load := fun x y =>
         let p := load img (x * fst (size img) / fst sz)%nat
                           (y * snd (size img) / snd sz)%nat in
         if String.eqb (mode img) "RGB" then to_rgb p else p |}
|}.

(** A fresh uploader on a fresh connection. *)
Definition fresh : State :=
  {| clock := 0; awaits := 0; subscribed := false; responses := [];
     transport := []; console := [] |}.

Definition quiet : Tick := {| elapsed := 0; arrivals := []; fails := false |}.

(** The device answers "OK" while the session subscribes and "Done" during
    the completion wait. *)
Definition env_ok_done : Env :=
  fun n =>
    if (n =? 1)%nat then {| elapsed := 0; arrivals := ["OK"]; fails := false |}
    else if (n =? 970)%nat then {| elapsed := 0; arrivals := ["Done"]; fails := false |}
    else quiet.


(** The device only ever answers "BUSY". *)
Definition env_busy : Env :=
  fun n => {| elapsed := 0; arrivals := ["BUSY"]; fails := false |}.





(** U+212A KELVIN SIGN, in UTF-8. *)
Definition kelvin_sign : string :=
  String "226" (String "132" (String "170" EmptyString)).

Fixpoint kelvin_to_k (s : string) : string :=
  match s with
  | EmptyString => EmptyString
  | String a t =>
      match t with
      | String b (String c s') =>
          if (Ascii.eqb a "226" && Ascii.eqb b "132" && Ascii.eqb c "170")%bool
          then String "k" (kelvin_to_k s')
          else String a (kelvin_to_k t)
      | _ => String a (kelvin_to_k t)
      end
  end.

(** A small stand-in for [str.lower]: the 7-bit letters and the Kelvin
    sign. *)
#[export] Instance lower_kelvin : Unicode := {|
  str_lower := fun s => Py.lower (kelvin_to_k s)
|}.

(** A file system with the one file "cat.PNG", and a [splitext] that cuts
    at the last dot. *)
Fixpoint ext_of (path : string) : string :=
  match path with
  | EmptyString => EmptyString
  | String c path' =>
      if Py.contains "." path' then ext_of path'
      else if Ascii.eqb c "." then path else EmptyString
  end.

#[export] Instance one_file : OsPath := {|
  path_exists := fun p => String.eqb p "cat.PNG";
  splitext := fun p =>
    (substring 0 (String.length p - String.length (ext_of p)) p, ext_of p)
|}.

(** What a scan might return. *)
Definition scan : list BLEDevice :=
  [ {| name := None; address := "00:00" |};
    {| name := Some "OtherGadget"; address := "11:11" |};
    {| name := Some "smART_Sketcher2.0"; address := "22:22" |};
    {| name := Some "Smart Sketch"; address := "33:33" |} ].

(** A device that advertises its name with a Kelvin sign for the K. *)
Definition kelvin_device : BLEDevice :=
  {| name := Some ("SMART S" ++ kelvin_sign ++ "ETCH"); address := "66:66" |}.

End Examples.

(* ================================================================== *)
(** * Properties *)

(** ** Bit-level facts about the 5-6-5 layout *)

Section Bits.

Lemma land_ones_low (a n : Z) :
  0 <= n -> 0 <= a < 2 ^ n -> Z.land a (Z.ones n) = a.
Proof.
  intros Hn Ha. rewrite Z.land_ones by assumption.
  apply Z.mod_small; assumption.
Qed.

(** Or-ing a value below [2^n] into a value shifted left by [n] adds them. *)
Lemma lor_shiftl_add (a b n : Z) :
  0 <= n -> 0 <= b < 2 ^ n -> Z.lor (Z.shiftl a n) b = a * 2 ^ n + b.
Proof.
  intros Hn Hb.
  assert (Hdisj : Z.land (Z.shiftl a n) b = 0).
  { apply Z.bits_inj'. intros i Hi.
    rewrite Z.land_spec, Z.bits_0.
    destruct (Z.lt_ge_cases i n) as [Hlt | Hge].
    - rewrite Z.shiftl_spec_low by assumption. reflexivity.
    - destruct (Z.eq_dec b 0) as [-> | Hnz].
      + rewrite Z.bits_0. apply andb_false_r.
      + rewrite (Z.bits_above_log2 b i); [apply andb_false_r | lia |].
        apply Z.lt_le_trans with n; [| assumption].
        apply Z.log2_lt_pow2; lia. }
  rewrite <- Z.lxor_lor by assumption.
  rewrite <- Z.add_nocarry_lxor by assumption.
  rewrite Z.shiftl_mul_pow2 by assumption. reflexivity.
Qed.

(** The value the source packs, as a sum of its three fields. *)
Lemma pack_as_sum (r5 g6 b5 : Z) :
  0 <= g6 < 64 -> 0 <= b5 < 32 ->
  Z.lor (Z.lor (Z.shiftl r5 11) (Z.shiftl g6 5)) b5 = r5 * 2048 + g6 * 32 + b5.
Proof.
  intros Hg Hb.
  replace (Z.shiftl r5 11) with (Z.shiftl (Z.shiftl r5 6) 5)
    by (rewrite Z.shiftl_shiftl by lia; reflexivity).
  rewrite <- Z.shiftl_lor.
  rewrite (lor_shiftl_add r5 g6 6) by (simpl; lia).
  rewrite (lor_shiftl_add _ b5 5) by (simpl; lia).
  change (2 ^ 6) with 64. change (2 ^ 5) with 32. lia.
Qed.

Lemma channel5 (c : Z) :
  0 <= c < 256 -> Z.land (Z.shiftr c 3) 0x1F = c / 8 /\ 0 <= c / 8 < 32.
Proof.
  intros Hc. rewrite Z.shiftr_div_pow2 by lia. change (2 ^ 3) with 8.
  assert (0 <= c / 8 < 32) by (split; [apply Z.div_pos | apply Z.div_lt_upper_bound]; lia).
  split; [| assumption].
  change 0x1F with (Z.ones 5). apply land_ones_low; simpl; lia.
Qed.

Lemma channel6 (c : Z) :
  0 <= c < 256 -> Z.land (Z.shiftr c 2) 0x3F = c / 4 /\ 0 <= c / 4 < 64.
Proof.
  intros Hc. rewrite Z.shiftr_div_pow2 by lia. change (2 ^ 2) with 4.
  assert (0 <= c / 4 < 64) by (split; [apply Z.div_pos | apply Z.div_lt_upper_bound]; lia).
  split; [| assumption].
  change 0x3F with (Z.ones 6). apply land_ones_low; simpl; lia.
Qed.

(** On 8-bit channels the masks of the source change nothing: the packed
    value is the specification's, and it is [r/8 * 2048 + g/4 * 32 + b/8]. *)
Lemma source_pack (r g b : Z) :
  0 <= r < 256 -> 0 <= g < 256 -> 0 <= b < 256 ->
  let v := Z.lor (Z.lor (Z.shiftl (Z.land (Z.shiftr r 3) 0x1F) 11)
                        (Z.shiftl (Z.land (Z.shiftr g 2) 0x3F) 5))
                 (Z.land (Z.shiftr b 3) 0x1F) in
  v = spec_pack565 r g b /\
  v = r / 8 * 2048 + g / 4 * 32 + b / 8 /\
  0 <= v < 65536.
Proof.
  intros Hr Hg Hb v. subst v.
  destruct (channel5 r Hr) as [Er Br], (channel6 g Hg) as [Eg Bg],
           (channel5 b Hb) as [Eb Bb].
  rewrite Er, Eg, Eb. unfold spec_pack565.
  rewrite !Z.shiftr_div_pow2 by lia.
  change (2 ^ 3) with 8. change (2 ^ 2) with 4.
  rewrite pack_as_sum by assumption.
  repeat split; lia.
Qed.

(** The two bytes the source appends are the low and the high byte. *)
Lemma source_bytes (v : Z) :
  0 <= v < 65536 ->
  Z.land v 0xFF = low_byte v /\ Z.land (Z.shiftr v 8) 0xFF = high_byte v.
Proof.
  intros Hv. unfold low_byte, high_byte.
  change 0xFF with (Z.ones 8).
  rewrite Z.shiftr_div_pow2 by lia. change (2 ^ 8) with 256.
  split.
  - rewrite Z.land_ones by lia. reflexivity.
  - apply land_ones_low; [lia |]. change (2 ^ 8) with 256.
    split; [apply Z.div_pos | apply Z.div_lt_upper_bound]; lia.
Qed.

End Bits.

(** The loop body on an RGB pixel: the specification's two bytes are put in
    front of the bytearray, high byte outermost. *)
Lemma rgb565_pixel_rgb (r g b : Z) (acc : Py.bytearray) :
  0 <= r < 256 -> 0 <= g < 256 -> 0 <= b < 256 ->
  rgb565_pixel [r; g; b] acc = Some (rev (spec_pixel_bytes [r; g; b]) ++ acc).
Proof.
  intros Hr Hg Hb. unfold rgb565_pixel, Py.append.
  destruct (source_pack r g b Hr Hg Hb) as (Espec & _ & Hrange).
  cbv zeta in Espec, Hrange.
  destruct (source_bytes _ Hrange) as [Elo Ehi].
  rewrite Elo, Ehi, Espec. reflexivity.
Qed.

(** ** Loops that fill a bytearray *)

Lemma bytes_rev (l : list Z) : Py.bytes (rev l) = l.
Proof.
  unfold Py.bytes. rewrite rev_append_rev, rev_involutive. apply app_nil_r.
Qed.

Lemma reverse_rev {A} (l : list A) : Py.reverse l = rev l.
Proof. unfold Py.reverse. rewrite rev_append_rev. apply app_nil_r. Qed.

(** A loop whose body puts the bytes [f x] in front of the bytearray puts
    [flat_map f xs] there. *)
Lemma for_each_prepend {A} (f : A -> list Z) (xs : list A)
    (body : A -> Py.bytearray -> option Py.bytearray) :
  (forall x acc, In x xs -> body x acc = Some (rev (f x) ++ acc)) ->
  forall acc, Py.for_each xs body acc = Some (rev (flat_map f xs) ++ acc).
Proof.
  induction xs as [| x xs IH]; intros Hbody acc; simpl.
  - reflexivity.
  - rewrite Hbody by (left; reflexivity).
    rewrite IH by (intros; apply Hbody; right; assumption).
    rewrite rev_app_distr, <- app_assoc. reflexivity.
Qed.

Lemma flat_map_length_const {A B} (f : A -> list B) (k : nat) (xs : list A) :
  (forall x, In x xs -> List.length (f x) = k) ->
  List.length (flat_map f xs) = (List.length xs * k)%nat.
Proof.
  induction xs as [| x xs IH]; intros Hk; simpl.
  - reflexivity.
  - rewrite length_app, Hk by (left; reflexivity).
    rewrite IH by (intros; apply Hk; right; assumption). reflexivity.
Qed.

(** Blocks of equal length laid end to end: position [i * k + j] holds
    element [j] of block [i]. *)
Lemma nth_error_flat_map_seq {B} (f : nat -> list B) (k n i j : nat) :
  (forall i', (i' < n)%nat -> List.length (f i') = k) ->
  (i < n)%nat -> (j < k)%nat ->
  nth_error (flat_map f (seq 0 n)) (i * k + j) = nth_error (f i) j.
Proof.
  induction n as [| n IH]; intros Hlen Hi Hj; [lia |].
  rewrite seq_S, flat_map_app. simpl. rewrite app_nil_r.
  assert (Hpre : List.length (flat_map f (seq 0 n)) = (n * k)%nat).
  { rewrite (flat_map_length_const f k), length_seq; [reflexivity |].
    intros x Hx. apply in_seq in Hx. apply Hlen. lia. }
  destruct (Nat.eq_dec i n) as [-> | Hne].
  - rewrite nth_error_app2 by lia. f_equal. lia.
  - rewrite nth_error_app1 by nia.
    apply IH; [intros; apply Hlen; lia | lia | lia].
Qed.

(** ** Image transcoder *)

Lemma spec_pixel_bytes_length (img : Image) (x y : nat) :
  rgb_pixels img ->
  (x < fst (size img))%nat -> (y < snd (size img))%nat ->
  List.length (spec_pixel_bytes (load img x y)) = 2%nat.
Proof.
  intros Hrgb Hx Hy. destruct (Hrgb x y Hx Hy) as (r & g & b & -> & _).
  reflexivity.
Qed.

Lemma spec_row_length (img : Image) (y : nat) :
  rgb_pixels img -> (y < snd (size img))%nat ->
  List.length (flat_map (fun x => spec_pixel_bytes (load img x y))
                        (seq 0 (fst (size img))))
  = (fst (size img) * 2)%nat.
Proof.
  intros Hrgb Hy.
  rewrite (flat_map_length_const _ 2), length_seq; [reflexivity |].
  intros x Hx. apply in_seq in Hx.
  apply spec_pixel_bytes_length; [assumption | lia | assumption].
Qed.

Lemma spec_rgb565_length (img : Image) :
  rgb_pixels img ->
  List.length (spec_rgb565 img) = (2 * fst (size img) * snd (size img))%nat.
Proof.
  intros Hrgb. unfold spec_rgb565.
  rewrite (flat_map_length_const _ (fst (size img) * 2)), length_seq; [lia |].
  intros y Hy. apply in_seq in Hy. apply spec_row_length; [assumption | lia].
Qed.

(** On an image of RGB pixels the source's double loop never raises and
    returns the specification's buffer. *)
Lemma rgb_to_rgb565_refines (img : Image) :
  rgb_pixels img -> rgb_to_rgb565 img = Some (spec_rgb565 img).
Proof.
  intros Hrgb. unfold rgb_to_rgb565, spec_rgb565, Py.range.
  unfold rgb_pixels in Hrgb.
  destruct (size img) as [width height]. simpl fst in *. simpl snd in *.
  rewrite (for_each_prepend
             (fun y => flat_map (fun x => spec_pixel_bytes (load img x y))
                                (seq 0 width))).
  - simpl. rewrite app_nil_r, bytes_rev. reflexivity.
  - intros y acc Hy. apply in_seq in Hy.
    apply for_each_prepend. intros x acc' Hx. apply in_seq in Hx.
    destruct (Hrgb x y) as (r & g & b & -> & Hr & Hg & Hb); [lia | lia |].
    apply rgb565_pixel_rgb; assumption.
Qed.

(** C1: on an image of 8-bit RGB pixels ([rgb_pixels]) the transcoder returns
    a buffer in which, for every pixel (x, y) with channels (r, g, b), the
    bytes at positions 2(y*width + x) and 2(y*width + x) + 1 are the low and
    the high byte of (r >> 3) << 11 | (g >> 2) << 5 | (b >> 3): quantized,
    packed, little-endian, in row-major scan order. *)
Theorem rgb_to_rgb565_row_major (img : Image) :
  rgb_pixels img ->
  exists data,
    rgb_to_rgb565 img = Some data /\
    data = spec_rgb565 img /\
    List.length data = (2 * fst (size img) * snd (size img))%nat /\
    forall x y, (x < fst (size img))%nat -> (y < snd (size img))%nat ->
      exists r g b,
        load img x y = [r; g; b] /\
        nth_error data (2 * (y * fst (size img) + x))
          = Some (low_byte (spec_pack565 r g b)) /\
        nth_error data (2 * (y * fst (size img) + x) + 1)
          = Some (high_byte (spec_pack565 r g b)).
Proof.
  intros Hrgb. exists (spec_rgb565 img).
  split; [apply rgb_to_rgb565_refines; assumption |].
  split; [reflexivity |].
  split; [apply spec_rgb565_length; assumption |].
  intros x y Hx Hy.
  destruct (Hrgb x y Hx Hy) as (r & g & b & Hpix & _).
  exists r, g, b. split; [assumption |].
  assert (Hrow : forall j, (j < 2)%nat ->
            nth_error (spec_rgb565 img) (2 * (y * fst (size img) + x) + j)
            = nth_error (spec_pixel_bytes (load img x y)) j).
  { intros j Hj. unfold spec_rgb565.
    replace (2 * (y * fst (size img) + x) + j)%nat
      with (y * (fst (size img) * 2) + (x * 2 + j))%nat by lia.
    rewrite (nth_error_flat_map_seq _ (fst (size img) * 2));
      [| intros; apply spec_row_length; assumption | assumption | lia].
    apply (nth_error_flat_map_seq
             (fun x' => spec_pixel_bytes (load img x' y)) 2);
      [| assumption | assumption].
    intros; apply spec_pixel_bytes_length; assumption. }
  split.
  - rewrite <- (Nat.add_0_r (2 * _)), Hrow by lia. rewrite Hpix. reflexivity.
  - rewrite Hrow by lia. rewrite Hpix. reflexivity.
Qed.

Lemma rgb_to_rgb565_row_major_witness :
  rgb_pixels (Examples.solid 255 128 7) /\
  exists data,
    rgb_to_rgb565 (Examples.solid 255 128 7) = Some data /\
    List.length data = (2 * 160 * 120)%nat /\
    nth_error data 0 = Some 0x00 /\ nth_error data 1 = Some 0xFC.
Proof.
  assert (Hrgb : rgb_pixels (Examples.solid 255 128 7)).
  { intros x y _ _. exists 255, 128, 7. repeat split; lia. }
  split; [exact Hrgb |].
  destruct (rgb_to_rgb565_row_major _ Hrgb) as (data & Hrun & _ & Hlen & Hat).
  exists data. split; [exact Hrun |]. split; [exact Hlen |].
  destruct (Hat 0%nat 0%nat) as (r & g & b & Hpix & Hlo & Hhi);
    [simpl; unfold DEVICE_WIDTH; lia | simpl; unfold DEVICE_HEIGHT; lia |].
  simpl in Hpix. injection Hpix as <- <- <-.
  split; [exact Hlo | exact Hhi].
Defined.

(** What [load_and_prepare_image] hands to the packer: a device-sized image
    of RGB pixels. *)
Lemma load_and_prepare_image_rgb `{PS : PillowSpec} (img : Image) :
  well_formed img ->
  let prepared := snd (load_and_prepare_image img DEVICE_WIDTH DEVICE_HEIGHT) in
  size prepared = (DEVICE_WIDTH, DEVICE_HEIGHT) /\ rgb_pixels prepared.
Proof.
  intros Hwf. unfold load_and_prepare_image.
  set (img1 := if negb (String.eqb (mode img) "RGB")
               then convert img "RGB"%string else img).
  assert (H1 : mode img1 = "RGB"%string /\ well_formed img1).
  { subst img1. destruct (String.eqb (mode img) "RGB") eqn:E; simpl.
    - apply String.eqb_eq in E. split; assumption.
    - split; [apply convert_mode | apply convert_well_formed; assumption]. }
  destruct H1 as [Hmode1 Hwf1].
  destruct (negb (String.eqb (mode img) "RGB")); fold img1;
    (destruct (negb (size_eqb (size img1) (DEVICE_WIDTH, DEVICE_HEIGHT))) eqn:E;
     cbn [snd];
     [ split; [apply resize_size |];
       apply resize_well_formed; [assumption |];
       rewrite resize_mode; assumption
     | split; [| apply Hwf1; assumption];
       apply negb_false_iff in E; unfold size_eqb in E;
       apply andb_true_iff in E; destruct E as [Ew Eh];
       apply Nat.eqb_eq in Ew, Eh; cbn [fst snd] in Ew, Eh;
       destruct (size img1); cbn [fst snd] in *; congruence ]).
Qed.

(** C2: for every decoded image, whatever its size and mode, preparing it
    (convert to RGB if needed, resample to 160 x 120 if needed) and packing
    it yields, without an exception, a buffer of exactly 38400 bytes.
    Pillow's [convert] and [resize] are taken with their documented
    contract ([PillowSpec]). *)
Theorem transcode_length `{PS : PillowSpec} (img : Image) :
  well_formed img ->
  exists data,
    rgb_to_rgb565 (snd (load_and_prepare_image img DEVICE_WIDTH DEVICE_HEIGHT))
      = Some data /\
    Z.of_nat (List.length data) = 2 * 160 * 120 /\
    Z.of_nat (List.length data) = 38400.
Proof.
  intros Hwf.
  destruct (load_and_prepare_image_rgb img Hwf) as [Hsize Hrgb].
  cbv zeta in Hsize, Hrgb.
  eexists. split; [apply rgb_to_rgb565_refines; exact Hrgb |].
  rewrite (spec_rgb565_length _ Hrgb), Hsize. cbn [fst snd].
  rewrite !Nat2Z.inj_mul. unfold DEVICE_WIDTH, DEVICE_HEIGHT.
  split; reflexivity.
Qed.

Lemma clamp_range (v : Z) : 0 <= Examples.clamp v < 256.
Proof. unfold Examples.clamp. lia. Qed.

Lemma to_rgb_triple (p : list Z) :
  exists r g b, Examples.to_rgb p = [r; g; b]
    /\ 0 <= r < 256 /\ 0 <= g < 256 /\ 0 <= b < 256.
Proof.
  destruct p as [| a [| b [| c [| d p]]]]; simpl;
    repeat eexists; try apply clamp_range; lia.
Qed.

(** The stand-in honours Pillow's contract. *)
Lemma nearest_spec : PillowSpec Examples.nearest.
Proof.
  constructor; simpl; try reflexivity.
  - intros img m _ Hm x y _ _. simpl in *. subst m. simpl. apply to_rgb_triple.
  - intros img sz _ Hm x y _ _. simpl in *. rewrite Hm. simpl. apply to_rgb_triple.
Qed.

Lemma transcode_length_witness :
  well_formed Examples.grey_2x1 /\
  exists data,
    rgb_to_rgb565
      (snd (@load_and_prepare_image Examples.nearest Examples.grey_2x1
              DEVICE_WIDTH DEVICE_HEIGHT))
      = Some data /\
    Z.of_nat (List.length data) = 38400.
Proof.
  assert (Hwf : well_formed Examples.grey_2x1) by (intros Hm; discriminate Hm).
  split; [exact Hwf |].
  destruct (@transcode_length _ nearest_spec _ Hwf) as (data & Hrun & _ & Hlen).
  exists data. split; [exact Hrun | exact Hlen].
Defined.

(** C9: for every 8-bit channel triple, reading back the two bytes the
    packer emits and shifting each field back to 8 bits gives channels that
    are below the originals by at most 7 (red, blue) and 3 (green). *)
Theorem pack_unpack_error (r g b : Z) :
  0 <= r < 256 -> 0 <= g < 256 -> 0 <= b < 256 ->
  exists lo hi,
    option_map Py.bytes (rgb565_pixel [r; g; b] []) = Some [lo; hi] /\
    let '(r', g', b') := spec_unpack565 (rgb565_of_bytes lo hi) in
    0 <= r - r' <= 7 /\ 0 <= g - g' <= 3 /\ 0 <= b - b' <= 7.
Proof.
  intros Hr Hg Hb.
  exists (low_byte (spec_pack565 r g b)), (high_byte (spec_pack565 r g b)).
  split.
  - rewrite rgb565_pixel_rgb by assumption. reflexivity.
  - destruct (source_pack r g b Hr Hg Hb) as (Espec & Esum & Hrange).
    cbv zeta in Espec, Esum, Hrange. rewrite Espec in Esum, Hrange.
    set (v := spec_pack565 r g b) in *.
    assert (Hv : rgb565_of_bytes (low_byte v) (high_byte v) = v).
    { unfold rgb565_of_bytes, low_byte, high_byte.
      rewrite Z.lor_comm, lor_shiftl_add.
      - change (2 ^ 8) with 256. pose proof (Z.div_mod v 256). lia.
      - lia.
      - change (2 ^ 8) with 256. apply Z.mod_pos_bound. lia. }
    rewrite Hv. unfold spec_unpack565.
    change 0x1F with (Z.ones 5). change 0x3F with (Z.ones 6).
    rewrite !Z.land_ones, !Z.shiftr_div_pow2, !Z.shiftl_mul_pow2 by lia.
    change (2 ^ 11) with 2048. change (2 ^ 5) with 32.
    change (2 ^ 6) with 64. change (2 ^ 3) with 8. change (2 ^ 2) with 4.
    clearbody v. subst v.
    repeat split; Z.div_mod_to_equations; lia.
Qed.

Lemma pack_unpack_error_witness :
  exists lo hi,
    option_map Py.bytes (rgb565_pixel [255; 3; 7] []) = Some [lo; hi] /\
    let '(r', g', b') := spec_unpack565 (rgb565_of_bytes lo hi) in
    0 <= 255 - r' <= 7 /\ 0 <= 3 - g' <= 3 /\ 0 <= 7 - b' <= 7.
Proof. apply (pack_unpack_error 255 3 7); lia. Defined.

(** ** Chunk framer *)

Lemma fold_left_snoc_map {A B} (g : A -> B) (xs : list A) (acc : list B) :
  fold_left (fun chunks i => chunks ++ [g i]) xs acc = acc ++ map g xs.
Proof.
  revert acc. induction xs as [| x xs IH]; intros acc; simpl.
  - symmetry. apply app_nil_r.
  - rewrite IH, <- app_assoc. reflexivity.
Qed.

Lemma slice_chunk_at {A} (k : nat) (data : list A) (j : nat) :
  Py.slice data (j * k) (j * k + k) = chunk_at k data j.
Proof. unfold Py.slice, chunk_at. f_equal. lia. Qed.

(** Enough consecutive chunks put end to end give the sequence back. *)
Lemma concat_chunks {A} (k n : nat) (data : list A) :
  (List.length data <= n * k)%nat ->
  List.concat (map (chunk_at k data) (seq 0 n)) = data.
Proof.
  revert data. induction n as [| n IH]; intros data Hlen.
  - destruct data; [reflexivity | simpl in Hlen; lia].
  - cbn [seq map List.concat]. rewrite <- seq_shift, map_map.
    unfold chunk_at at 1. cbn [Nat.mul skipn].
    rewrite (map_ext _ (chunk_at k (skipn k data))).
    + rewrite IH; [apply firstn_skipn |]. rewrite length_skipn. lia.
    + intros j. unfold chunk_at. rewrite skipn_skipn. f_equal. f_equal. lia.
Qed.

Lemma ceil_div_bounds (len k : nat) :
  (1 <= k)%nat ->
  let n := ((len + k - 1) / k)%nat in
  (len <= n * k)%nat /\ (n * k < len + k)%nat.
Proof.
  intros Hk n. subst n.
  pose proof (Nat.div_mod_eq (len + k - 1) k) as E.
  pose proof (Nat.mod_upper_bound (len + k - 1) k) as U.
  nia.
Qed.

(** The chunks are the consecutive pieces of the reversed buffer. *)
Lemma prepare_chunks_pieces (rgb565_data : list Z) (chunk_size : Z) :
  1 <= chunk_size ->
  exists chunks,
    prepare_chunks rgb565_data chunk_size = Some chunks /\
    rev (List.concat chunks) = rgb565_data /\
    List.concat chunks = rev rgb565_data /\
    Z.of_nat (List.length chunks)
      = (Z.of_nat (List.length rgb565_data) + chunk_size - 1) / chunk_size /\
    forall i chunk, nth_error chunks i = Some chunk ->
      chunk = firstn (Z.to_nat chunk_size)
                     (skipn (i * Z.to_nat chunk_size) (rev rgb565_data)) /\
      1 <= Z.of_nat (List.length chunk) <= chunk_size /\
      ((S i < List.length chunks)%nat -> Z.of_nat (List.length chunk) = chunk_size).
Proof.
  intros Hcs.
  set (k := Z.to_nat chunk_size).
  set (n := ((List.length (rev rgb565_data) + k - 1) / k)%nat).
  assert (Hk : (1 <= k)%nat) by (subst k; lia).
  exists (map (chunk_at k (rev rgb565_data)) (seq 0 n)).
  destruct (ceil_div_bounds (List.length (rev rgb565_data)) k Hk) as [Hlo Hhi].
  fold n in Hlo, Hhi.
  assert (Hcat : List.concat (map (chunk_at k (rev rgb565_data)) (seq 0 n))
                 = rev rgb565_data) by (apply concat_chunks; exact Hlo).
  split; [| split; [| split; [| split]]].
  - unfold prepare_chunks, Py.range_step. rewrite reverse_rev.
    destruct (Z.eqb_spec chunk_size 0) as [E | _]; [lia |].
    destruct (Z.ltb_spec chunk_size 0) as [E | _]; [lia |].
    fold k. fold n. rewrite fold_left_snoc_map, map_map. simpl.
    f_equal. apply map_ext. intros j. apply slice_chunk_at.
  - rewrite Hcat. apply rev_involutive.
  - exact Hcat.
  - rewrite length_map, length_seq. subst n. rewrite length_rev.
    rewrite Nat2Z.inj_div, Nat2Z.inj_sub, Nat2Z.inj_add by lia.
    subst k. rewrite Z2Nat.id by lia. reflexivity.
  - intros i chunk Hi. rewrite length_map, length_seq.
    assert (Hin : (i < n)%nat).
    { assert (H' : nth_error (map (chunk_at k (rev rgb565_data)) (seq 0 n)) i <> None)
        by congruence.
      apply nth_error_Some in H'. rewrite length_map, length_seq in H'. exact H'. }
    rewrite nth_error_map, nth_error_seq in Hi.
    destruct (Nat.ltb_spec i n) as [_ | Hge]; [| lia].
    simpl in Hi. injection Hi as <-.
    split; [reflexivity |].
    unfold chunk_at. rewrite length_firstn, length_skipn.
    split; [nia |]. intros Hnext. subst k. nia.
Qed.

(** C3: for every buffer and every chunk size >= 1 the framer returns chunks
    (no exception) that are the consecutive [chunk_size]-byte pieces of the
    reversed buffer: every chunk but the last has exactly [chunk_size] bytes,
    the last has between 1 and [chunk_size]; there are ceil(len/chunk_size)
    of them; put end to end they are the reversed buffer, and reversing that
    gives the original buffer back. *)
Theorem prepare_chunks_lossless (rgb565_data : list Z) (chunk_size : Z) :
  1 <= chunk_size ->
  exists chunks,
    prepare_chunks rgb565_data chunk_size = Some chunks /\
    rev (List.concat chunks) = rgb565_data /\
    List.concat chunks = rev rgb565_data /\
    Z.of_nat (List.length chunks)
      = (Z.of_nat (List.length rgb565_data) + chunk_size - 1) / chunk_size /\
    forall i chunk, nth_error chunks i = Some chunk ->
      chunk = firstn (Z.to_nat chunk_size)
                     (skipn (i * Z.to_nat chunk_size) (rev rgb565_data)) /\
      1 <= Z.of_nat (List.length chunk) <= chunk_size /\
      ((S i < List.length chunks)%nat -> Z.of_nat (List.length chunk) = chunk_size).
Proof. apply prepare_chunks_pieces. Qed.

Lemma prepare_chunks_lossless_witness :
  exists chunks,
    prepare_chunks [1; 2; 3; 4; 5] 2 = Some chunks /\
    rev (List.concat chunks) = [1; 2; 3; 4; 5] /\
    chunks = [[5; 4]; [3; 2]; [1]].
Proof.
  destruct (prepare_chunks_lossless [1; 2; 3; 4; 5] 2) as (chunks & Hrun & Hrev & _);
    [lia |].
  exists chunks. split; [exact Hrun |]. split; [exact Hrev |].
  vm_compute in Hrun. injection Hrun as <-. reflexivity.
Defined.

(** ** Text helpers *)

Lemma prefix_app (p s : string) :
  String.prefix p s = true <-> exists post, s = (p ++ post)%string.
Proof.
  revert s. induction p as [| c p IH]; intros s.
  - split; [intros _; exists s; reflexivity | intros _; destruct s; reflexivity].
  - destruct s as [| d s]; simpl.
    + split; [discriminate | intros [post H]; discriminate H].
    + destruct (Ascii.ascii_dec c d) as [-> | Hne].
      * rewrite IH. split; intros [post H]; exists post; congruence.
      * split; [discriminate | intros [post H]; congruence].
Qed.

(** [Py.contains] is the substring relation. *)
Lemma contains_substring (needle hay : string) :
  Py.contains needle hay = true <->
  exists pre post, hay = (pre ++ needle ++ post)%string.
Proof.
  induction hay as [| c hay IH].
  - cbn [Py.contains]. rewrite orb_false_r, prefix_app. split.
    + intros [post H]. exists EmptyString, post. exact H.
    + intros (pre & post & H). destruct pre; simpl in H.
      * exists post. exact H.
      * discriminate H.
  - cbn [Py.contains]. rewrite orb_true_iff, prefix_app, IH. split.
    + intros [[post H] | (pre & post & H)].
      * exists EmptyString, post. exact H.
      * exists (String c pre), post. simpl. congruence.
    + intros (pre & post & H). destruct pre as [| d pre]; simpl in H.
      * left. exists post. exact H.
      * right. exists pre, post. congruence.
Qed.

(** ** Device locator *)

(** C8: the scan loop returns the first discovered device whose name contains
    both "smart" and "sketch" once lower-cased by [str.lower], and [None]
    exactly when no discovered device has such a name; "smART_Sketcher2.0"
    passes the filter and "OtherGadget" does not.  The names are arbitrary
    Unicode text; of [str.lower] only its behaviour on 7-bit text is
    assumed ([UnicodeSpec]). *)
Theorem find_smart_sketch_first_match `{US : UnicodeSpec}
    (devices : list BLEDevice) :
  (forall d, is_smart_sketch d = true <->
     exists n, name d = Some n /\
       (exists pre post, str_lower n = (pre ++ "smart" ++ post)%string) /\
       (exists pre post, str_lower n = (pre ++ "sketch" ++ post)%string)) /\
  (forall d, find_smart_sketch devices = Some d <->
     exists before after,
       devices = before ++ d :: after /\
       is_smart_sketch d = true /\
       forall d', In d' before -> is_smart_sketch d' = false) /\
  (find_smart_sketch devices = None <->
     forall d, In d devices -> is_smart_sketch d = false) /\
  is_smart_sketch {| name := Some "smART_Sketcher2.0"%string;
                     address := "AA:BB"%string |} = true /\
  is_smart_sketch {| name := Some "OtherGadget"%string;
                     address := "CC:DD"%string |} = false.
Proof.
  split; [| split; [| split;
    [| split; unfold is_smart_sketch; cbn [name];
       rewrite str_lower_ascii by reflexivity; reflexivity]]].
  - intros d. unfold is_smart_sketch. destruct (name d) as [n |].
    + rewrite !andb_true_iff, !contains_substring. split.
      * intros [[_ Hsmart] Hsketch]. exists n. auto.
      * intros (n' & E & Hsmart & Hsketch). injection E as <-.
        repeat split; try assumption.
        destruct n; [| reflexivity].
        destruct Hsmart as (pre & post & H).
        rewrite str_lower_ascii in H by reflexivity.
        destruct pre; discriminate H.
    + split; [discriminate | intros (n & E & _); discriminate E].
  - induction devices as [| d0 devices IH]; intros d; simpl.
    + split; [discriminate |].
      intros (before & after & E & _). destruct before; discriminate E.
    + destruct (is_smart_sketch d0) eqn:E0.
      * split.
        -- intros H. injection H as <-. exists [], devices.
           repeat split; [assumption | intros d' []].
        -- intros (before & after & E & Hd & Hbefore).
           destruct before as [| b before]; simpl in E.
           ++ congruence.
           ++ injection E as <- _. rewrite Hbefore in E0 by (left; reflexivity).
              discriminate E0.
      * rewrite IH. split.
        -- intros (before & after & E & Hd & Hbefore).
           exists (d0 :: before), after. simpl. repeat split; [congruence | assumption |].
           intros d' [<- | Hin]; [assumption | apply Hbefore; assumption].
        -- intros (before & after & E & Hd & Hbefore).
           destruct before as [| b before]; simpl in E.
           ++ injection E as -> _. congruence.
           ++ injection E as <- E. exists before, after.
              repeat split; [assumption | assumption |].
              intros d' Hin. apply Hbefore. right. assumption.
  - induction devices as [| d0 devices IH]; simpl.
    + split; [intros _ d [] | reflexivity].
    + destruct (is_smart_sketch d0) eqn:E0.
      * split; [discriminate |]. intros H.
        rewrite H in E0 by (left; reflexivity). discriminate E0.
      * rewrite IH. split.
        -- intros H d [<- | Hin]; [assumption | apply H; assumption].
        -- intros H d Hin. apply H. right. assumption.
Qed.

Lemma kelvin_to_k_ascii (s : string) :
  Py.isascii s = true -> Examples.kelvin_to_k s = s.
Proof.
  induction s as [| a t IH]; [reflexivity |].
  cbn [Py.isascii]. intros H. apply andb_true_iff in H. destruct H as [Ha Ht].
  assert (Hne : Ascii.eqb a "226" = false).
  { apply Ascii.eqb_neq. intros ->. vm_compute in Ha. discriminate Ha. }
  specialize (IH Ht).
  destruct t as [| b [| c s']]; cbn [Examples.kelvin_to_k] in *;
    rewrite ?Hne; cbn [andb]; rewrite ?IH; reflexivity.
Qed.

(** The stand-in honours the law of [str.lower]. *)
Lemma lower_kelvin_spec : UnicodeSpec Examples.lower_kelvin.
Proof.
  constructor. intros s Hs. cbn [str_lower Examples.lower_kelvin].
  rewrite kelvin_to_k_ascii by exact Hs. reflexivity.
Qed.

Lemma find_smart_sketch_first_match_witness :
  @find_smart_sketch Examples.lower_kelvin
    [ {| name := Some "OtherGadget"%string; address := "11:11"%string |};
      Examples.kelvin_device;
      {| name := Some "smART_Sketcher2.0"%string; address := "22:22"%string |} ]
  = Some Examples.kelvin_device.
Proof.
  destruct (@find_smart_sketch_first_match _ lower_kelvin_spec
              [ {| name := Some "OtherGadget"%string; address := "11:11"%string |};
                Examples.kelvin_device;
                {| name := Some "smART_Sketcher2.0"%string;
                   address := "22:22"%string |} ])
    as (_ & Hfirst & _).
  apply Hfirst.
  exists [ {| name := Some "OtherGadget"%string; address := "11:11"%string |} ],
         [ {| name := Some "smART_Sketcher2.0"%string; address := "22:22"%string |} ].
  split; [reflexivity |]. split; [reflexivity |].
  intros d' [<- | []]. reflexivity.
Defined.

(** ** Notification handler *)









(* ================================================================== *)
(** ** The event loop: what one await changes *)

(** Split conjunctions only (never an existential). *)
Ltac conj := repeat match goal with |- _ /\ _ => split end.

Ltac frame_simpl :=
  cbn [fst snd clock awaits subscribed transport responses console
       advance record_call] in *.

Ltac frame_done :=
  conj; first [assumption | reflexivity | congruence | lia | idtac].

Lemma handler_frame (data : string) (st : State) :
  clock (_notification_handler data st) = clock st /\
  awaits (_notification_handler data st) = awaits st /\
  subscribed (_notification_handler data st) = subscribed st /\
  transport (_notification_handler data st) = transport st.
Proof.
  unfold _notification_handler.
  destruct (Py.truthy _); conj; reflexivity.
Qed.

Lemma handler_log (data : string) (st : State) :
  exists new, responses (_notification_handler data st) = responses st ++ new.
Proof.
  unfold _notification_handler. destruct (Py.truthy _); simpl.
  - eexists. reflexivity.
  - exists []. symmetry. apply app_nil_r.
Qed.

Lemma fold_handler_frame (payloads : list string) (st : State) :
  let st' := fold_left (fun s data => _notification_handler data s) payloads st in
  clock st' = clock st /\ awaits st' = awaits st /\
  subscribed st' = subscribed st /\ transport st' = transport st /\
  exists new, responses st' = responses st ++ new.
Proof.
  revert st. induction payloads as [| p ps IH]; intros st; simpl.
  - conj; try reflexivity. exists []. symmetry. apply app_nil_r.
  - destruct (IH (_notification_handler p st)) as (Hc & Ha & Hs & Ht & new & Hr).
    destruct (handler_frame p st) as (Hc' & Ha' & Hs' & Ht').
    destruct (handler_log p st) as (new' & Hr').
    conj; try congruence.
    exists (new' ++ new). rewrite Hr, Hr', app_assoc. reflexivity.
Qed.

(** Callbacks only touch the log and the console. *)
Lemma deliver_frame (payloads : list string) (st : State) :
  clock (deliver payloads st) = clock st /\
  awaits (deliver payloads st) = awaits st /\
  subscribed (deliver payloads st) = subscribed st /\
  transport (deliver payloads st) = transport st /\
  exists new, responses (deliver payloads st) = responses st ++ new.
Proof.
  unfold deliver. destruct (subscribed st) eqn:E.
  - destruct (fold_handler_frame payloads st) as (Hc & Ha & Hs & Ht & Hr).
    conj; try assumption. congruence.
  - conj; try reflexivity; try assumption. exists []. symmetry. apply app_nil_r.
Qed.

Lemma sleep_run (ms : Z) (env : Env) (st : State) :
  fst (sleep ms env st) = Ok tt /\
  clock (snd (sleep ms env st))
    = clock st + ms + Z.of_N (elapsed (env (awaits st))) /\
  awaits (snd (sleep ms env st)) = S (awaits st) /\
  subscribed (snd (sleep ms env st)) = subscribed st /\
  transport (snd (sleep ms env st)) = transport st /\
  exists new, responses (snd (sleep ms env st)) = responses st ++ new.
Proof.
  unfold sleep. cbn [fst snd].
  destruct (deliver_frame (arrivals (env (awaits st)))
                          (advance ms (env (awaits st)) st))
    as (Hc & Ha & Hs & Ht & Hr).
  cbn [clock awaits subscribed transport responses advance] in Hc, Ha, Hs, Ht, Hr.
  conj; try assumption. reflexivity.
Qed.

Lemma bind_sleep {A} (ms : Z) (k : M A) (env : Env) (st : State) :
  (sleep ms ;; k) env st = k env (snd (sleep ms env st)).
Proof. reflexivity. Qed.

Lemma bind_print {A} (lines : list Line) (k : M A) (env : Env) (st : State) :
  (print lines ;; k) env st = k env (snd (print lines env st)).
Proof. reflexivity. Qed.

Lemma write_run (data : list Z) (response : bool) (env : Env) (st : State) :
  let r := write_gatt_char data response env st in
  awaits (snd r) = S (awaits st) /\
  subscribed (snd r) = subscribed st /\
  clock st <= clock (snd r) /\
  (exists new, responses (snd r) = responses st ++ new) /\
  (if fails (env (awaits st))
   then fst r = Raise BleakError /\ transport (snd r) = transport st
   else fst r = Ok tt /\
        transport (snd r) = transport st ++ [EvWrite data response]).
Proof.
  unfold write_gatt_char.
  destruct (deliver_frame (arrivals (env (awaits st)))
                          (advance 0 (env (awaits st)) st))
    as (Hc & Ha & Hs & Ht & Hr).
  destruct (fails (env (awaits st))); frame_simpl; frame_done.
Qed.

Lemma start_notify_run (env : Env) (st : State) :
  let r := start_notify env st in
  awaits (snd r) = S (awaits st) /\
  clock st <= clock (snd r) /\
  (exists new, responses (snd r) = responses st ++ new) /\
  (if fails (env (awaits st))
   then fst r = Raise BleakError /\ transport (snd r) = transport st /\
        subscribed (snd r) = subscribed st
   else fst r = Ok tt /\
        transport (snd r) = transport st ++ [EvStartNotify] /\
        subscribed (snd r) = true).
Proof.
  unfold start_notify.
  destruct (fails (env (awaits st))).
  - destruct (deliver_frame (arrivals (env (awaits st)))
                            (advance 0 (env (awaits st)) st))
      as (Hc & Ha & Hs & Ht & Hr).
    frame_simpl; frame_done.
  - destruct (deliver_frame (arrivals (env (awaits st)))
               (record_call EvStartNotify true (advance 0 (env (awaits st)) st)))
      as (Hc & Ha & Hs & Ht & Hr).
    frame_simpl; frame_done.
Qed.

Lemma stop_notify_run (env : Env) (st : State) :
  let r := stop_notify env st in
  awaits (snd r) = S (awaits st) /\
  clock st <= clock (snd r) /\
  (exists new, responses (snd r) = responses st ++ new) /\
  (if fails (env (awaits st))
   then fst r = Raise BleakError /\ transport (snd r) = transport st /\
        subscribed (snd r) = subscribed st
   else fst r = Ok tt /\
        transport (snd r) = transport st ++ [EvStopNotify] /\
        subscribed (snd r) = false).
Proof.
  unfold stop_notify.
  destruct (deliver_frame (arrivals (env (awaits st)))
                          (advance 0 (env (awaits st)) st))
    as (Hc & Ha & Hs & Ht & Hr).
  destruct (fails (env (awaits st))); frame_simpl; frame_done.
Qed.

(** ** Polling *)

Lemma poll_frame (env : Env) (k : nat) (st : State) :
  clock st + 100 * Z.of_nat k <= clock (poll env k st) /\
  awaits (poll env k st) = (awaits st + k)%nat /\
  subscribed (poll env k st) = subscribed st /\
  transport (poll env k st) = transport st /\
  exists new, responses (poll env k st) = responses st ++ new.
Proof.
  revert st. induction k as [| k IH]; intros st.
  - cbn [poll]. conj; try lia; try reflexivity.
    exists []. symmetry. apply app_nil_r.
  - cbn [poll].
    destruct (IH (snd (sleep 100 env st))) as (Hc & Ha & Hs & Ht & new & Hr).
    destruct (sleep_run 100 env st) as (_ & Hc' & Ha' & Hs' & Ht' & new' & Hr').
    conj; try congruence; try lia.
    exists (new' ++ new). rewrite Hr, Hr', app_assoc. reflexivity.
Qed.

Lemma poll_add (env : Env) (a b : nat) (st : State) :
  poll env (a + b) st = poll env b (poll env a st).
Proof.
  revert st. induction a as [| a IH]; intros st; [reflexivity |].
  cbn [poll Nat.add]. apply IH.
Qed.

Lemma poll_clock_mono (env : Env) (j k : nat) (st : State) :
  (j <= k)%nat -> clock (poll env j st) <= clock (poll env k st).
Proof.
  intros Hjk. replace k with (j + (k - j))%nat by lia.
  rewrite poll_add.
  destruct (poll_frame env (k - j) (poll env j st)) as (Hc & _). lia.
Qed.

(** The log only grows: what it has, it keeps. *)
Lemma log_has_app `{U : Unicode} (word : string) (st st' : State) (new : list string) :
  responses st' = responses st ++ new ->
  log_has word st = true -> log_has word st' = true.
Proof.
  unfold log_has. intros -> H. rewrite existsb_app, H. reflexivity.
Qed.

(** ** The window test *)

Lemma window_open_lt (now start timeout : Z) :
  now - start < timeout -> window_open now start timeout = true.
Proof.
  intros H. unfold window_open. cbv zeta.
  destruct (Z.eqb_spec (now - start) timeout); [lia | apply Z.ltb_lt; exact H].
Qed.

Lemma window_open_gt (now start timeout : Z) :
  timeout < now - start -> window_open now start timeout = false.
Proof.
  intros H. unfold window_open. cbv zeta.
  destruct (Z.eqb_spec (now - start) timeout); [lia | apply Z.ltb_ge; lia].
Qed.

(** An open window has not run past its timeout; a closed one has reached
    it. *)
Lemma window_open_le (now start timeout : Z) :
  window_open now start timeout = true -> now - start <= timeout.
Proof.
  unfold window_open. cbv zeta.
  destruct (Z.eqb_spec (now - start) timeout); [lia |].
  intros H. apply Z.ltb_lt in H. lia.
Qed.

Lemma window_open_ge (now start timeout : Z) :
  window_open now start timeout = false -> timeout <= now - start.
Proof.
  unfold window_open. cbv zeta.
  destruct (Z.eqb_spec (now - start) timeout); [lia |].
  intros H. apply Z.ltb_ge in H. exact H.
Qed.

(** At the moment [start] is read the window is open iff the timeout is
    positive. *)
Lemma window_open_start (start timeout : Z) :
  window_open start start timeout = (0 <? timeout).
Proof.
  unfold window_open. cbv zeta. rewrite Z.sub_diag.
  destruct (Z.eqb_spec 0 timeout) as [<- | _]; reflexivity.
Qed.

(** Where a waiting loop leaves: there is a first poll [k] at which either
    the window is still open and the condition holds, and the loop continues
    as [on_found] from the state of that poll, or the window has closed, and
    it continues as [on_timeout]; at every earlier poll the window was open
    and the condition failed.  With more units of fuel than the window has
    milliseconds left the iteration bound is never reached. *)
Lemma poll_until_stops (found : State -> bool) (timeout start : Z)
    (on_found on_timeout : M bool) (env : Env) (fuel : nat) (st : State) :
  timeout - (clock st - start) < Z.of_nat fuel ->
  exists k,
    (forall j, (j < k)%nat ->
       window_open (clock (poll env j st)) start timeout = true /\
       found (poll env j st) = false) /\
    ((window_open (clock (poll env k st)) start timeout = true /\
      found (poll env k st) = true /\
      poll_until fuel found timeout start on_found on_timeout env st
        = on_found env (poll env k st))
     \/
     (window_open (clock (poll env k st)) start timeout = false /\
      poll_until fuel found timeout start on_found on_timeout env st
        = on_timeout env (poll env k st))).
Proof.
  revert st. induction fuel as [| fuel IH]; intros st Hfuel.
  - exists 0%nat. split; [intros j Hj; lia |]. right. cbn [poll poll_until].
    rewrite window_open_gt by lia. split; reflexivity.
  - cbn [poll_until].
    destruct (window_open (clock st) start timeout) eqn:Hopen.
    + destruct (found st) eqn:Hfound.
      * exists 0%nat. split; [intros j Hj; lia |]. left. cbn [poll]. auto.
      * rewrite bind_sleep.
        destruct (sleep_run 100 env st) as (_ & Hc & _).
        apply window_open_le in Hopen as Hle.
        destruct (IH (snd (sleep 100 env st))) as (k & Hbefore & Hat); [lia |].
        exists (S k). split.
        -- intros [| j] Hj; cbn [poll]; [auto | apply Hbefore; lia].
        -- cbn [poll]. exact Hat.
    + exists 0%nat. split; [intros j Hj; lia |]. right. cbn [poll]. auto.
Qed.

Lemma wait_loop_poll_until `{U : Unicode} (fuel : nat) (expected : string) (timeout start : Z)
    (env : Env) (st : State) :
  wait_loop fuel expected timeout start env st
  = poll_until fuel (log_has (str_lower expected)) timeout start
      (stop_notify ;; ret true) (stop_notify ;; ret false) env st.
Proof.
  revert st. induction fuel as [| fuel IH]; intros st; cbn [wait_loop poll_until];
    unfold log_has; [reflexivity |].
  destruct (window_open (clock st) start timeout); [| reflexivity].
  destruct (existsb _ _); [reflexivity |].
  rewrite !bind_sleep. apply IH.
Qed.

Lemma completion_loop_poll_until `{U : Unicode} (fuel : nat) (start : Z) (env : Env) (st : State) :
  completion_loop fuel start env st
  = poll_until fuel (log_has "done") 20000 start
      (stop_notify ;; print [LBlankRule; LUploaded; LRule; LCheckProjector] ;; ret true)
      (stop_notify ;; print [LNoDone; LNormal] ;; ret true) env st.
Proof.
  revert st. induction fuel as [| fuel IH]; intros st;
    cbn [completion_loop poll_until]; unfold log_has; [reflexivity |].
  destruct (window_open (clock st) start 20000); [| reflexivity].
  destruct (existsb _ _); [reflexivity |].
  rewrite !bind_sleep. apply IH.
Qed.

(* ================================================================== *)
(** ** Sequencing *)

Lemma bind_ok {A B} (m : M A) (f : A -> M B) (env : Env) (st st' : State) (a : A) :
  m env st = (Ok a, st') -> bind m f env st = f a env st'.
Proof. intros H. unfold bind. rewrite H. reflexivity. Qed.

Lemma bind_raise {A B} (m : M A) (f : A -> M B) (env : Env) (st st' : State)
    (e : Exn) :
  m env st = (Raise e, st') -> bind m f env st = (Raise e, st').
Proof. intros H. unfold bind. rewrite H. reflexivity. Qed.

Lemma bind_time {A} (k : Z -> M A) (env : Env) (st : State) :
  (start <- time ;; k start) env st = k (clock st) env st.
Proof. reflexivity. Qed.

Lemma run_eq {A} (r : Res A * State) (a : Res A) :
  fst r = a -> r = (a, snd r).
Proof. destruct r; simpl; intros ->; reflexivity. Qed.

(** Client calls are only ever added to the record. *)
Lemma extends_refl (st : State) : extends st st.
Proof. exists []. symmetry. apply app_nil_r. Qed.

Lemma extends_trans (a b c : State) : extends a b -> extends b c -> extends a c.
Proof.
  intros [e1 H1] [e2 H2]. exists (e1 ++ e2). rewrite H2, H1, app_assoc. reflexivity.
Qed.

Lemma extends_same (a b : State) : transport b = transport a -> extends a b.
Proof. intros H. exists []. rewrite H. symmetry. apply app_nil_r. Qed.

Lemma bind_extends {A B} (m : M A) (f : A -> M B) :
  (forall env st, extends st (snd (m env st))) ->
  (forall a env st, extends st (snd (f a env st))) ->
  forall env st, extends st (snd (bind m f env st)).
Proof.
  intros Hm Hf env st. unfold bind. specialize (Hm env st).
  destruct (m env st) as [[a | e |] st']; cbn [snd] in *; try assumption.
  eapply extends_trans; [exact Hm | apply Hf].
Qed.

Lemma print_extends (lines : list Line) (env : Env) (st : State) :
  extends st (snd (print lines env st)).
Proof. apply extends_same. reflexivity. Qed.

Lemma sleep_extends (ms : Z) (env : Env) (st : State) :
  extends st (snd (sleep ms env st)).
Proof. apply extends_same. apply sleep_run. Qed.

Lemma write_extends (data : list Z) (response : bool) (env : Env) (st : State) :
  extends st (snd (write_gatt_char data response env st)).
Proof.
  destruct (write_run data response env st) as (_ & _ & _ & _ & H).
  destruct (fails (env (awaits st))).
  - apply extends_same. apply H.
  - eexists. apply H.
Qed.

Lemma start_notify_extends (env : Env) (st : State) :
  extends st (snd (start_notify env st)).
Proof.
  destruct (start_notify_run env st) as (_ & _ & _ & H).
  destruct (fails (env (awaits st))).
  - apply extends_same. apply H.
  - eexists. apply H.
Qed.

Lemma stop_notify_extends (env : Env) (st : State) :
  extends st (snd (stop_notify env st)).
Proof.
  destruct (stop_notify_run env st) as (_ & _ & _ & H).
  destruct (fails (env (awaits st))).
  - apply extends_same. apply H.
  - eexists. apply H.
Qed.

Lemma ret_extends {A} (a : A) (env : Env) (st : State) :
  extends st (snd (ret a env st)).
Proof. apply extends_refl. Qed.

Lemma poll_extends (env : Env) (k : nat) (st : State) :
  extends st (poll env k st).
Proof. apply extends_same. apply poll_frame. Qed.

Lemma for_each_m_extends {A} (body : A -> M unit) (xs : list A) :
  (forall x env st, extends st (snd (body x env st))) ->
  forall env st, extends st (snd (for_each_m xs body env st)).
Proof.
  intros Hbody. induction xs as [| x xs IH]; cbn [for_each_m].
  - intros; apply ret_extends.
  - apply bind_extends; [apply Hbody | intros _; exact IH].
Qed.

Lemma send_chunks_extends (chunks : list (list Z)) (env : Env) (st : State) :
  extends st (snd (send_chunks chunks env st)).
Proof.
  revert env st. unfold send_chunks.
  apply bind_extends; [apply start_notify_extends | intros _].
  apply bind_extends; [apply print_extends | intros _].
  apply bind_extends.
  - apply for_each_m_extends. intros [i chunk].
    apply bind_extends.
    + intros env st. destruct (i mod 50 =? 0)%nat;
        [apply print_extends | apply ret_extends].
    + intros _. apply bind_extends; [apply write_extends | intros _].
      apply sleep_extends.
  - intros _. apply bind_extends; [apply print_extends | intros _].
    apply print_extends.
Qed.

(** ** The two waits *)

(** Leaving a wait: [stop_notify], then some printing, then the result. *)
Lemma stop_print_ret (lines : list Line) (b : bool) (env : Env) (st : State) :
  let r := (stop_notify ;; print lines ;; ret b) env st in
  (exists new, responses (snd r) = responses st ++ new) /\
  (if fails (env (awaits st))
   then fst r = Raise BleakError /\ transport (snd r) = transport st /\
        subscribed (snd r) = subscribed st
   else fst r = Ok b /\
        transport (snd r) = transport st ++ [EvStopNotify] /\
        subscribed (snd r) = false /\
        exists pre, console (snd r) = pre ++ lines).
Proof.
  destruct (stop_notify_run env st) as (_ & _ & Hr & H).
  unfold bind. cbv zeta in Hr, H.
  destruct (stop_notify env st) as [res s] eqn:E. cbn [fst snd] in *.
  destruct (fails (env (awaits st))).
  - destruct H as (-> & Ht & Hs). cbn [fst snd]. conj; assumption || reflexivity.
  - destruct H as (-> & Ht & Hs). unfold print, ret. cbn [fst snd transport
      subscribed console responses].
    conj; try assumption; try reflexivity. eexists. reflexivity.
Qed.

Lemma stop_ret (b : bool) (env : Env) (st : State) :
  let r := (stop_notify ;; ret b) env st in
  (exists new, responses (snd r) = responses st ++ new) /\
  (if fails (env (awaits st))
   then fst r = Raise BleakError /\ transport (snd r) = transport st /\
        subscribed (snd r) = subscribed st
   else fst r = Ok b /\
        transport (snd r) = transport st ++ [EvStopNotify] /\
        subscribed (snd r) = false).
Proof.
  destruct (stop_notify_run env st) as (_ & _ & Hr & H).
  unfold bind. cbv zeta in Hr, H.
  destruct (stop_notify env st) as [res s] eqn:E. cbn [fst snd] in *.
  destruct (fails (env (awaits st)));
    destruct H as (-> & Ht & Hs); cbn [fst snd ret]; conj;
    assumption || reflexivity.
Qed.

(** [wait_for_response] once the subscription is in place: it leaves at a
    first poll [k], with [True] when the log then has the expected word and
    the window is open, with [False] when the window has closed. *)
Lemma wait_for_response_run `{U : Unicode} (expected : string) (timeout : Z) (env : Env)
    (st s1 : State) :
  start_notify env st = (Ok tt, s1) ->
  exists k,
    (forall j, (j < k)%nat ->
       window_open (clock (poll env j s1)) (clock s1) timeout = true /\
       log_has (str_lower expected) (poll env j s1) = false) /\
    ((window_open (clock (poll env k s1)) (clock s1) timeout = true /\
      log_has (str_lower expected) (poll env k s1) = true /\
      wait_for_response expected timeout env st
        = (stop_notify ;; ret true) env (poll env k s1))
     \/
     (window_open (clock (poll env k s1)) (clock s1) timeout = false /\
      wait_for_response expected timeout env st
        = (stop_notify ;; ret false) env (poll env k s1))).
Proof.
  intros Hstart. unfold wait_for_response.
  rewrite (bind_ok _ _ _ _ _ _ Hstart), bind_time.
  destruct (poll_until_stops (log_has (str_lower expected)) timeout (clock s1)
              (stop_notify ;; ret true) (stop_notify ;; ret false) env
              (S (Z.to_nat timeout)) s1) as (k & Hbefore & Hat); [lia |].
  exists k. split; [exact Hbefore |].
  rewrite !wait_loop_poll_until. exact Hat.
Qed.

(** The same for the completion wait that ends [upload_image]. *)
Lemma await_completion_run `{U : Unicode} (env : Env) (st : State) :
  let s3 := snd (print [LWaiting] env st) in
  exists k,
    (forall j, (j < k)%nat ->
       window_open (clock (poll env j s3)) (clock s3) 20000 = true /\
       log_has "done" (poll env j s3) = false) /\
    ((window_open (clock (poll env k s3)) (clock s3) 20000 = true /\
      log_has "done" (poll env k s3) = true /\
      await_completion env st
        = (stop_notify ;;
           print [LBlankRule; LUploaded; LRule; LCheckProjector] ;;
           ret true) env (poll env k s3))
     \/
     (window_open (clock (poll env k s3)) (clock s3) 20000 = false /\
      await_completion env st
        = (stop_notify ;; print [LNoDone; LNormal] ;; ret true) env
            (poll env k s3))).
Proof.
  intros s3. unfold await_completion. rewrite bind_print. fold s3.
  rewrite bind_time.
  destruct (poll_until_stops (log_has "done") 20000 (clock s3)
              (stop_notify ;;
               print [LBlankRule; LUploaded; LRule; LCheckProjector] ;; ret true)
              (stop_notify ;; print [LNoDone; LNormal] ;; ret true) env
              (S (Z.to_nat 20000)) s3) as (k & Hbefore & Hat); [lia |].
  exists k. split; [exact Hbefore |].
  rewrite !completion_loop_poll_until. exact Hat.
Qed.

Lemma poll_until_extends (found : State -> bool) (timeout start : Z)
    (on_found on_timeout : M bool) (fuel : nat) :
  (forall env st, extends st (snd (on_found env st))) ->
  (forall env st, extends st (snd (on_timeout env st))) ->
  forall env st,
    extends st (snd (poll_until fuel found timeout start on_found on_timeout env st)).
Proof.
  intros Hf Ht. induction fuel as [| fuel IH]; intros env st; cbn [poll_until];
    destruct (window_open (clock st) start timeout); try apply Ht;
    destruct (found st); try apply Hf.
  - apply extends_refl.
  - rewrite bind_sleep.
    eapply extends_trans; [apply sleep_extends | apply IH].
Qed.

Lemma stop_ret_extends (b : bool) (env : Env) (st : State) :
  extends st (snd ((stop_notify ;; ret b) env st)).
Proof.
  revert env st. apply bind_extends; [apply stop_notify_extends | intros _].
  apply ret_extends.
Qed.

Lemma stop_print_ret_extends (lines : list Line) (b : bool) (env : Env) (st : State) :
  extends st (snd ((stop_notify ;; print lines ;; ret b) env st)).
Proof.
  revert env st. apply bind_extends; [apply stop_notify_extends | intros _].
  apply bind_extends; [apply print_extends | intros _]. apply ret_extends.
Qed.

Lemma wait_for_response_extends `{U : Unicode} (expected : string) (timeout : Z) (env : Env)
    (st : State) :
  extends st (snd (wait_for_response expected timeout env st)).
Proof.
  revert env st. unfold wait_for_response.
  apply bind_extends; [apply start_notify_extends | intros _].
  intros env st. rewrite bind_time, wait_loop_poll_until.
  apply poll_until_extends; apply stop_ret_extends.
Qed.

Lemma await_completion_extends `{U : Unicode} (env : Env) (st : State) :
  extends st (snd (await_completion env st)).
Proof.
  revert env st. unfold await_completion.
  apply bind_extends; [apply print_extends | intros _].
  intros env st. rewrite bind_time, completion_loop_poll_until.
  apply poll_until_extends; apply stop_print_ret_extends.
Qed.

(** ** The command phase *)

Lemma bind_lift {A B} (e : Exn) (o : option A) (k : A -> M B) (env : Env)
    (st : State) :
  (x <- lift e o ;; k x) env st
  = match o with Some a => k a env st | None => (Raise e, st) end.
Proof. destruct o; reflexivity. Qed.

Lemma command_bytes (chunk_size : Z) :
  Py.bytes_of [0x01; 0x00; 0x00; 0x00; chunk_size; 0x00; 0x02; 0x00]
  = if (0 <=? chunk_size) && (chunk_size <? 256)
    then Some (spec_command_frame chunk_size) else None.
Proof.
  unfold Py.bytes_of, spec_command_frame. cbn [forallb].
  change ((0 <=? 1) && (1 <? 256)) with true.
  change ((0 <=? 0) && (0 <? 256)) with true.
  change ((0 <=? 2) && (2 <? 256)) with true.
  cbn [andb]. rewrite andb_true_r. reflexivity.
Qed.

(** What the first part of [upload_image] does: it either raises before any
    client call has been recorded, or it returns the chunks of the prepared
    image after exactly one recorded call, the write of the command frame
    without response. *)
Lemma send_command_run `{Pillow} (img : Image) (chunk_size : Z) (env : Env)
    (st : State) :
  let r := send_command img chunk_size env st in
  subscribed (snd r) = subscribed st /\
  match fst r with
  | Ok chunks =>
      (exists data,
         rgb_to_rgb565 (snd (load_and_prepare_image img DEVICE_WIDTH DEVICE_HEIGHT))
           = Some data /\
         prepare_chunks data chunk_size = Some chunks) /\
      0 <= chunk_size < 256 /\
      fails (env (awaits st)) = false /\
      transport (snd r)
        = transport st ++ [EvWrite (spec_command_frame chunk_size) false]
  | Raise _ => transport (snd r) = transport st
  | Diverge => False
  end.
Proof.
  unfold send_command.
  destruct (load_and_prepare_image img DEVICE_WIDTH DEVICE_HEIGHT) as [out img'].
  cbn [snd]. rewrite !bind_print, bind_lift.
  destruct (rgb_to_rgb565 img') as [data |] eqn:Edata; [| split; reflexivity].
  rewrite bind_print, bind_lift.
  destruct (prepare_chunks data chunk_size) as [chunks |] eqn:Echunks;
    [| split; reflexivity].
  rewrite !bind_print, bind_lift, command_bytes.
  destruct ((0 <=? chunk_size) && (chunk_size <? 256)) eqn:Erange;
    [| split; reflexivity].
  apply andb_true_iff in Erange. destruct Erange as [Hlo Hhi].
  apply Z.leb_le in Hlo. apply Z.ltb_lt in Hhi.
  match goal with
  | |- context [bind (write_gatt_char ?d ?r) _ env ?s] =>
      set (sp := s);
      destruct (write_run d r env sp) as (_ & Hs & _ & _ & Hw);
      cbv zeta in Hs, Hw; unfold bind;
      destruct (write_gatt_char d r env sp) as [res s'] eqn:Ew
  end.
  subst sp. cbn [fst snd print awaits transport subscribed] in Hs, Hw.
  destruct (fails (env (awaits st))); destruct Hw as [-> Ht]; cbn [fst snd ret].
  - split; assumption.
  - split; [assumption |].
    split; [exists data; split; [reflexivity | assumption] |].
    split; [lia |]. split; [reflexivity | assumption].
Qed.

(** ** The transfer on a client that does not raise *)


Lemma map_snd_enumerate {A B} (f : A -> B) (xs : list A) (start : nat) :
  map (fun ic : nat * A => f (snd ic)) (combine (seq start (List.length xs)) xs)
  = map f xs.
Proof.
  revert start. induction xs as [| x xs IH]; intros start; [reflexivity |].
  cbn [List.length seq combine map snd]. rewrite IH. reflexivity.
Qed.


(** ** Runs that return *)

Lemma bind_returns {A B} (m : M A) (f : A -> M B) (env : Env) (st s' : State)
    (b : B) :
  bind m f env st = (Ok b, s') ->
  exists a s1, m env st = (Ok a, s1) /\ f a env s1 = (Ok b, s').
Proof.
  unfold bind. destruct (m env st) as [[a | e |] s1]; try discriminate.
  intros H. exists a, s1. auto.
Qed.

Lemma stop_ret_returns (b r : bool) (env : Env) (st s' : State) :
  (stop_notify ;; ret b) env st = (Ok r, s') ->
  r = b /\ subscribed s' = false /\
  transport s' = transport st ++ [EvStopNotify] /\
  exists new, responses s' = responses st ++ new.
Proof.
  intros Hrun. destruct (stop_ret b env st) as (Hr & H).
  cbv zeta in Hr, H. rewrite Hrun in Hr, H. cbn [fst snd] in Hr, H.
  destruct (fails (env (awaits st))).
  - destruct H as [E _]. discriminate E.
  - destruct H as (E & Ht & Hs). injection E as ->. auto.
Qed.

Lemma stop_print_ret_returns (lines : list Line) (b r : bool) (env : Env)
    (st s' : State) :
  (stop_notify ;; print lines ;; ret b) env st = (Ok r, s') ->
  r = b /\ subscribed s' = false /\
  transport s' = transport st ++ [EvStopNotify] /\
  (exists new, responses s' = responses st ++ new) /\
  exists pre, console s' = pre ++ lines.
Proof.
  intros Hrun. destruct (stop_print_ret lines b env st) as (Hr & H).
  cbv zeta in Hr, H. rewrite Hrun in Hr, H. cbn [fst snd] in Hr, H.
  destruct (fails (env (awaits st))).
  - destruct H as [E _]. discriminate E.
  - destruct H as (E & Ht & Hs & Hc). injection E as ->. auto.
Qed.

(** A [wait_for_response] that returns has subscribed and unsubscribed, and
    nothing else. *)
Lemma wait_for_response_returns `{U : Unicode} (expected : string) (timeout : Z) (env : Env)
    (st sw : State) (b : bool) :
  wait_for_response expected timeout env st = (Ok b, sw) ->
  subscribed sw = false /\
  transport sw = transport st ++ [EvStartNotify; EvStopNotify].
Proof.
  intros Hrun.
  destruct (start_notify_run env st) as (_ & _ & _ & H0). cbv zeta in H0.
  destruct (start_notify env st) as [[[] | e |] s1] eqn:Estart;
    cbn [fst snd] in H0.
  - assert (Ht1 : transport s1 = transport st ++ [EvStartNotify]).
    { destruct (fails (env (awaits st))); destruct H0 as (E & Ht & _);
        [discriminate E | exact Ht]. }
    destruct (wait_for_response_run expected timeout env st s1 Estart)
      as (k & _ & [(_ & _ & E) | (_ & E)]);
      rewrite E in Hrun; apply stop_ret_returns in Hrun;
      destruct Hrun as (_ & Hs & Ht & _);
      (split; [exact Hs |]);
      destruct (poll_frame env k s1) as (_ & _ & _ & Htp & _);
      rewrite Ht, Htp, Ht1, <- app_assoc; reflexivity.
  - unfold wait_for_response in Hrun.
    rewrite (bind_raise _ _ _ _ _ _ Estart) in Hrun. discriminate Hrun.
  - destruct (fails (env (awaits st))); destruct H0 as [E _]; discriminate E.
Qed.

(** A completion wait that returns has returned [True], has unsubscribed, and
    has printed either the success banner (the log then has "done") or the
    warning that no "Done" was received. *)
Lemma await_completion_returns `{U : Unicode} (env : Env) (st s' : State) (r : bool) :
  await_completion env st = (Ok r, s') ->
  r = true /\ subscribed s' = false /\
  transport s' = transport st ++ [EvStopNotify] /\
  exists pre,
    (console s' = pre ++ [LBlankRule; LUploaded; LRule; LCheckProjector] /\
     log_has "done" s' = true)
    \/ console s' = pre ++ [LNoDone; LNormal].
Proof.
  intros Hrun.
  destruct (await_completion_run env st) as (k & _ & [(_ & Hdone & E) | (_ & E)]);
    cbv zeta in E; rewrite E in Hrun; apply stop_print_ret_returns in Hrun;
    destruct Hrun as (-> & Hs & Ht & (new & Hr) & (pre & Hc));
    destruct (poll_frame env k (snd (print [LWaiting] env st)))
      as (_ & _ & _ & Htp & _);
    (split; [reflexivity |]); (split; [exact Hs |]);
    (split; [rewrite Ht, Htp; reflexivity |]); exists pre.
  - left. split; [exact Hc |]. eapply log_has_app; eassumption.
  - right. exact Hc.
Qed.

(** Every run of [upload_image] that returns: the subscription is released,
    the last client call is [stop_notify], and the run ended in one of three
    ways that the return value and the last printed lines tell apart. *)
Lemma upload_image_returns `{Pillow} `{U : Unicode} (img : Image) (chunk_size : Z) (env : Env)
    (st s' : State) (r : bool) :
  upload_image img chunk_size env st = (Ok r, s') ->
  subscribed s' = false /\
  (exists evs, transport s' = transport st ++ evs ++ [EvStopNotify]) /\
  exists pre,
    (r = false /\ console s' = pre ++ [LFailedOK] /\
     transport s' = transport st ++
       [EvWrite (spec_command_frame chunk_size) false; EvStartNotify; EvStopNotify])
    \/ (r = true /\
        console s' = pre ++ [LBlankRule; LUploaded; LRule; LCheckProjector] /\
        log_has "done" s' = true)
    \/ (r = true /\ console s' = pre ++ [LNoDone; LNormal]).
Proof.
  intros Hrun. unfold upload_image in Hrun.
  apply bind_returns in Hrun. destruct Hrun as (chunks & s0 & Ecmd & Hrun).
  destruct (send_command_run img chunk_size env st) as (_ & Hcmd).
  cbv zeta in Hcmd. rewrite Ecmd in Hcmd. cbn [fst snd] in Hcmd.
  destruct Hcmd as (_ & _ & _ & Ht0).
  apply bind_returns in Hrun. destruct Hrun as (ok & sw & Ewait & Hrun).
  destruct (wait_for_response_returns _ _ _ _ _ _ Ewait) as (Hsw & Htw).
  destruct ok; cbn [negb] in Hrun.
  - rewrite bind_print in Hrun.
    apply bind_returns in Hrun. destruct Hrun as ([] & s2 & Esend & Hrun).
    pose proof (send_chunks_extends chunks env (snd (print [LDeviceReady] env sw)))
      as [evs Ht2].
    rewrite Esend in Ht2. cbn [snd print transport] in Ht2.
    apply await_completion_returns in Hrun.
    destruct Hrun as (-> & Hs & Ht & (pre & Hc)).
    split; [exact Hs |]. split.
    + exists ([EvWrite (spec_command_frame chunk_size) false;
               EvStartNotify; EvStopNotify] ++ evs).
      rewrite Ht, Ht2, Htw, Ht0, <- !app_assoc. reflexivity.
    + exists pre. right. destruct Hc as [[Hc Hd] | Hc]; [left | right]; auto.
  - unfold bind, print, ret in Hrun. injection Hrun as <- <-.
    cbn [subscribed transport console].
    split; [exact Hsw |]. split.
    + exists [EvWrite (spec_command_frame chunk_size) false; EvStartNotify].
      rewrite Htw, Ht0, <- !app_assoc. reflexivity.
    + exists (console sw). left.
      split; [reflexivity |]. split; [reflexivity |].
      rewrite Htw, Ht0, <- app_assoc. reflexivity.
Qed.

(** ** Where the log's entries come from *)





(** ** The test of the waiting loops on 7-bit text *)

(** What the handler logs is 7-bit text. *)
Lemma decode_ascii_ignore_isascii (data : string) :
  Py.isascii (Py.decode_ascii_ignore data) = true.
Proof.
  induction data as [| c data IH]; [reflexivity |].
  cbn [Py.decode_ascii_ignore].
  destruct (nat_of_ascii c <? 128)%nat eqn:Ec; [| exact IH].
  cbn [Py.isascii]. rewrite Ec, IH. reflexivity.
Qed.

(** For a [str.lower] that keeps its law the lower-cased "OK" is "ok". *)
Lemma str_lower_OK `{US : UnicodeSpec} : str_lower "OK" = "ok"%string.
Proof. rewrite str_lower_ascii by reflexivity. reflexivity. Qed.

(** For such a [str.lower], on a log of 7-bit text the test is the one
    that lower-cases the letters A to Z. *)
Lemma log_has_seven_bit `{US : UnicodeSpec} (word : string) (st : State) :
  (forall r, In r (responses st) -> Py.isascii r = true) ->
  log_has word st
  = existsb (fun r => Py.contains word (Py.lower r)) (responses st).
Proof.
  unfold log_has. induction (responses st) as [| r rs IH]; intros Hascii;
    [reflexivity |].
  cbn [existsb]. rewrite str_lower_ascii by (apply Hascii; left; reflexivity).
  rewrite IH by (intros r' Hin; apply Hascii; right; exact Hin). reflexivity.
Qed.

(* ================================================================== *)
(** ** The upload session *)

(** What [upload_image] does after the command frame only adds client
    calls. *)
Lemma after_command_extends `{U : Unicode} (chunks : list (list Z)) (env : Env) (st : State) :
  extends st
    (snd ((ok <- wait_for_response "OK" 10000 ;;
           if negb ok then print [LFailedOK] ;; ret false
           else print [LDeviceReady] ;; send_chunks chunks ;; await_completion)
          env st)).
Proof.
  revert env st. apply bind_extends.
  - intros env st. apply wait_for_response_extends.
  - intros [] env st; cbn [negb].
    + revert env st. apply bind_extends; [intros; apply print_extends |].
      intros _. apply bind_extends; [intros; apply send_chunks_extends |].
      intros _ env st. apply await_completion_extends.
    + revert env st. apply bind_extends; [intros; apply print_extends |].
      intros _ env st. apply ret_extends.
Qed.

(** A full frame buffer in chunks of 80 bytes. *)
Lemma default_chunks (data : list Z) :
  Z.of_nat (List.length data) = 38400 ->
  exists chunks,
    prepare_chunks data 80 = Some chunks /\
    Z.of_nat (List.length chunks) = 480 /\
    forall chunk, In chunk chunks -> Z.of_nat (List.length chunk) = 80.
Proof.
  intros Hlen.
  destruct (prepare_chunks_pieces data 80) as (chunks & Hrun & _ & _ & Hn & Hat);
    [lia |].
  rewrite Hlen in Hn. change ((38400 + 80 - 1) / 80) with 480 in Hn.
  exists chunks. split; [exact Hrun |]. split; [exact Hn |].
  intros chunk Hin. apply In_nth_error in Hin. destruct Hin as [i Hi].
  assert (Hlt : (i < List.length chunks)%nat)
    by (apply nth_error_Some; congruence).
  destruct (Hat i chunk Hi) as (-> & _ & _).
  rewrite length_firstn, length_skipn, length_rev. lia.
Qed.

(** C4: whatever else an upload session does, the first call that reaches
    the client is the write of the 8-byte command frame
    [01 00 00 00 chunkSize 00 02 00] without a write acknowledgement
    ([response=False]); a session that makes no client call at all has
    raised.  With the default chunk size 80 the fifth byte is 0x50, and a
    buffer of 38400 bytes is cut into 480 chunks of 80 bytes. *)
Theorem command_frame_first `{Pillow} `{U : Unicode} (img : Image) (chunk_size : Z)
    (env : Env) (st : State) :
  let run := upload_image img chunk_size env st in
  ((exists e, fst run = Raise e /\ transport (snd run) = transport st) \/
   (0 <= chunk_size < 256 /\
    nth_error (spec_command_frame chunk_size) 4 = Some chunk_size /\
    List.length (spec_command_frame chunk_size) = 8%nat /\
    exists rest,
      transport (snd run)
      = transport st ++ EvWrite (spec_command_frame chunk_size) false :: rest)) /\
  spec_command_frame 80 = [0x01; 0x00; 0x00; 0x00; 0x50; 0x00; 0x02; 0x00] /\
  forall data, Z.of_nat (List.length data) = 38400 ->
    exists chunks,
      prepare_chunks data 80 = Some chunks /\
      Z.of_nat (List.length chunks) = 480 /\
      forall chunk, In chunk chunks -> Z.of_nat (List.length chunk) = 80.
Proof.
  cbv zeta. split; [| split; [reflexivity | apply default_chunks]].
  destruct (send_command_run img chunk_size env st) as (_ & Hcmd).
  cbv zeta in Hcmd. unfold upload_image.
  destruct (send_command img chunk_size env st) as [[chunks | e |] s0] eqn:Ecmd;
    cbn [fst snd] in Hcmd.
  - right. destruct Hcmd as (_ & Hrange & _ & Ht0).
    rewrite (bind_ok _ _ _ _ _ _ Ecmd).
    destruct (after_command_extends chunks env s0) as [rest Hrest].
    split; [exact Hrange |]. split; [reflexivity |]. split; [reflexivity |].
    exists rest. rewrite Hrest, Ht0, <- app_assoc. reflexivity.
  - left. exists e. rewrite (bind_raise _ _ _ _ _ _ Ecmd). cbn [fst snd]. auto.
  - contradiction.
Qed.

Lemma command_frame_first_witness :
  exists rest,
    transport (snd (@upload_image Examples.nearest Examples.lower_kelvin (Examples.solid 255 128 7) 80
                                 Examples.env_ok_done Examples.fresh))
    = EvWrite [1; 0; 0; 0; 80; 0; 2; 0] false :: rest.
Proof.
  destruct (@command_frame_first Examples.nearest Examples.lower_kelvin (Examples.solid 255 128 7) 80
              Examples.env_ok_done Examples.fresh) as ([Hraise | Hsent] & _).
  - destruct Hraise as (e & He & _). vm_compute in He. discriminate He.
  - destruct Hsent as (_ & _ & _ & rest & Hrest). exists rest. exact Hrest.
Defined.











(* ================================================================== *)
(** ** How each part of the session can end *)









(* ================================================================== *)
(** * Further properties of the code *)

(** ** Chunk framer: edge cases *)

(** [prepare_chunks] with a chunk size of zero raises for every buffer
    ([range] refuses a zero step); with a negative chunk size it returns no
    chunk at all, whatever the buffer holds. *)
Theorem prepare_chunks_bad_chunk_size (rgb565_data : list Z) :
  prepare_chunks rgb565_data 0 = None /\
  forall chunk_size, chunk_size < 0 -> prepare_chunks rgb565_data chunk_size = Some [].
Proof.
  split.
  - reflexivity.
  - intros chunk_size Hneg. unfold prepare_chunks, Py.range_step.
    destruct (Z.eqb_spec chunk_size 0) as [-> | _]; [lia |].
    destruct (Z.ltb_spec chunk_size 0); [reflexivity | lia].
Qed.

(** A non-empty buffer that fits into one chunk is sent as one chunk: the
    buffer reversed. *)
Theorem prepare_chunks_single_chunk (rgb565_data : list Z) (chunk_size : Z) :
  rgb565_data <> [] ->
  Z.of_nat (List.length rgb565_data) <= chunk_size ->
  prepare_chunks rgb565_data chunk_size = Some [rev rgb565_data].
Proof.
  intros Hne Hfit.
  assert (Hpos : (0 < List.length rgb565_data)%nat)
    by (destruct rgb565_data; [congruence | simpl; lia]).
  destruct (prepare_chunks_pieces rgb565_data chunk_size)
    as (chunks & Hrun & _ & Hcat & Hn & _); [lia |].
  rewrite Hrun. f_equal.
  assert (Hone : Z.of_nat (List.length chunks) = 1).
  { rewrite Hn. symmetry.
    apply Z.div_unique with (r := Z.of_nat (List.length rgb565_data) - 1); lia. }
  destruct chunks as [| c [| c' chunks]]; simpl in Hone; try lia.
  simpl in Hcat. rewrite app_nil_r in Hcat. congruence.
Qed.

Lemma prepare_chunks_single_chunk_witness :
  prepare_chunks [1; 2; 3] 80 = Some [[3; 2; 1]].
Proof.
  apply (prepare_chunks_single_chunk [1; 2; 3] 80); [discriminate | simpl; lia].
Defined.

(** The empty buffer gives no chunk, for every chunk size but zero. *)
Theorem prepare_chunks_empty (chunk_size : Z) :
  chunk_size <> 0 -> prepare_chunks [] chunk_size = Some [].
Proof.
  intros Hnz. unfold prepare_chunks, Py.range_step.
  destruct (Z.eqb_spec chunk_size 0); [contradiction |].
  destruct (Z.ltb_spec chunk_size 0); [reflexivity |].
  cbn [Py.reverse rev_append List.length].
  replace ((0 + Z.to_nat chunk_size - 1) / Z.to_nat chunk_size)%nat with 0%nat;
    [reflexivity |].
  symmetry. apply Nat.div_small. lia.
Qed.

Lemma prepare_chunks_empty_witness : prepare_chunks [] 80 = Some [].
Proof. apply (prepare_chunks_empty 80). lia. Defined.

(** ** Image transcoder: what the masks and the unpacking give *)

Lemma land_byte (v m : Z) : 0 <= m < 256 -> 0 <= Z.land v m < 256.
Proof.
  intros Hm.
  rewrite <- (land_ones_low m 8) by (change (2 ^ 8) with 256; lia).
  rewrite Z.land_assoc, Z.land_ones by lia.
  change (2 ^ 8) with 256. apply Z.mod_pos_bound. lia.
Qed.

(** Whatever integers the three bands hold, the packer appends two values in
    range(256): the [& 0xFF] masks make [bytearray.append] safe. *)
Theorem rgb565_pixel_bytes_in_range (r g b : Z) (rgb565_data : Py.bytearray) :
  exists lo hi,
    rgb565_pixel [r; g; b] rgb565_data = Some (hi :: lo :: rgb565_data) /\
    0 <= lo < 256 /\ 0 <= hi < 256.
Proof.
  unfold rgb565_pixel, Py.append. eexists. eexists.
  split; [reflexivity |]. split; apply land_byte; lia.
Qed.

(** A failing body anywhere in the list makes the loop fail. *)
Lemma for_each_raises {A S} (xs : list A) (body : A -> S -> option S) (x : A) :
  In x xs -> (forall s, body x s = None) -> forall s, Py.for_each xs body s = None.
Proof.
  induction xs as [| x' xs IH]; intros Hin Hfail s; [contradiction |].
  cbn [Py.for_each]. destruct Hin as [-> | Hin].
  - rewrite Hfail. reflexivity.
  - destruct (body x' s); [apply IH; assumption | reflexivity].
Qed.

(** One pixel inside the image that is not a 3-tuple (a mode other than RGB:
    a greyscale value, an RGBA quadruple) makes [rgb_to_rgb565] raise. *)
Theorem rgb_to_rgb565_unpack_error (img : Image) (x y : nat) :
  (x < fst (size img))%nat -> (y < snd (size img))%nat ->
  List.length (load img x y) <> 3%nat ->
  rgb_to_rgb565 img = None.
Proof.
  intros Hx Hy Hbands. unfold rgb_to_rgb565.
  destruct (size img) as [width height]. cbn [fst snd] in Hx, Hy.
  rewrite (for_each_raises _ _ y); [reflexivity | apply in_seq; lia |].
  intros acc. apply (for_each_raises _ _ x); [apply in_seq; lia |].
  intros acc'. unfold rgb565_pixel.
  destruct (load img x y) as [| r [| g [| b [| a p]]]]; try reflexivity.
  contradiction Hbands. reflexivity.
Qed.

Lemma rgb_to_rgb565_unpack_error_witness : rgb_to_rgb565 Examples.grey_2x1 = None.
Proof.
  apply (rgb_to_rgb565_unpack_error Examples.grey_2x1 1 0); simpl; [lia | lia | lia].
Defined.

(** ** Image preparation *)

(** An RGB image that already has the device's size is handed on as it is:
    neither [convert] nor [resize] is called, and only the two opening lines
    are printed. *)
Theorem load_and_prepare_image_unchanged `{Pillow} (img : Image) :
  mode img = "RGB"%string ->
  size img = (DEVICE_WIDTH, DEVICE_HEIGHT) ->
  load_and_prepare_image img DEVICE_WIDTH DEVICE_HEIGHT
  = ([LLoading; LOriginalSize (DEVICE_WIDTH, DEVICE_HEIGHT)], img).
Proof.
  intros Hmode Hsize. unfold load_and_prepare_image.
  rewrite Hmode. change (negb ("RGB" =? "RGB")%string) with false.
  cbv beta iota. rewrite Hsize. reflexivity.
Qed.

Lemma load_and_prepare_image_unchanged_witness :
  snd (@load_and_prepare_image Examples.nearest (Examples.solid 1 2 3)
         DEVICE_WIDTH DEVICE_HEIGHT) = Examples.solid 1 2 3.
Proof.
  rewrite (@load_and_prepare_image_unchanged Examples.nearest (Examples.solid 1 2 3));
    reflexivity.
Defined.

Lemma size_eqb_refl (sz : nat * nat) : size_eqb sz sz = true.
Proof. unfold size_eqb. rewrite !Nat.eqb_refl. reflexivity. Qed.

(** Preparing twice is preparing once: the prepared image passes both tests
    of [load_and_prepare_image], for every Pillow that keeps its contract. *)
Theorem load_and_prepare_image_idempotent `{PS : PillowSpec} (img : Image) :
  let prepared := snd (load_and_prepare_image img DEVICE_WIDTH DEVICE_HEIGHT) in
  mode prepared = "RGB"%string /\
  size prepared = (DEVICE_WIDTH, DEVICE_HEIGHT) /\
  snd (load_and_prepare_image prepared DEVICE_WIDTH DEVICE_HEIGHT) = prepared.
Proof.
  cbv zeta.
  assert (Hprep : mode (snd (load_and_prepare_image img DEVICE_WIDTH DEVICE_HEIGHT))
                  = "RGB"%string /\
                  size (snd (load_and_prepare_image img DEVICE_WIDTH DEVICE_HEIGHT))
                  = (DEVICE_WIDTH, DEVICE_HEIGHT)).
  { unfold load_and_prepare_image.
    set (img1 := if negb (String.eqb (mode img) "RGB")
                 then convert img "RGB"%string else img).
    assert (Hmode1 : mode img1 = "RGB"%string).
    { subst img1. destruct (String.eqb (mode img) "RGB") eqn:E; simpl.
      - apply String.eqb_eq. exact E.
      - apply convert_mode. }
    destruct (negb (String.eqb (mode img) "RGB")); fold img1;
      (destruct (negb (size_eqb (size img1) (DEVICE_WIDTH, DEVICE_HEIGHT))) eqn:E;
       cbn [snd];
       [ rewrite resize_mode, resize_size; split; [assumption | reflexivity]
       | split; [assumption |];
         apply negb_false_iff in E; unfold size_eqb in E;
         apply andb_true_iff in E; destruct E as [Ew Eh];
         apply Nat.eqb_eq in Ew, Eh; cbn [fst snd] in Ew, Eh;
         destruct (size img1); cbn [fst snd] in *; congruence ]). }
  destruct Hprep as [Hmode Hsize]. split; [exact Hmode |]. split; [exact Hsize |].
  set (prepared := snd (load_and_prepare_image img DEVICE_WIDTH DEVICE_HEIGHT)) in *.
  unfold load_and_prepare_image at 1. rewrite Hmode.
  change (negb ("RGB" =? "RGB")%string) with false.
  cbv beta iota. rewrite Hsize, size_eqb_refl. reflexivity.
Qed.

Lemma load_and_prepare_image_idempotent_witness :
  snd (@load_and_prepare_image Examples.nearest
         (snd (@load_and_prepare_image Examples.nearest Examples.grey_2x1
                 DEVICE_WIDTH DEVICE_HEIGHT))
         DEVICE_WIDTH DEVICE_HEIGHT)
  = snd (@load_and_prepare_image Examples.nearest Examples.grey_2x1
           DEVICE_WIDTH DEVICE_HEIGHT).
Proof.
  destruct (@load_and_prepare_image_idempotent _ nearest_spec Examples.grey_2x1)
    as (_ & _ & Hsame).
  exact Hsame.
Defined.

(* ================================================================== *)
(** ** What a whole session preserves

    A relation between the state before and the state after that is
    reflexive, transitive and kept by each primitive step is kept by every
    part of the session, however it ends. *)

Section SessionInvariant.

Variable R : State -> State -> Prop.
Hypothesis R_refl : forall st, R st st.
Hypothesis R_trans : forall a b c, R a b -> R b c -> R a c.
Hypothesis R_print : forall lines env st, R st (snd (print lines env st)).
Hypothesis R_sleep : forall ms env st, R st (snd (sleep ms env st)).
Hypothesis R_write :
  forall data response env st, R st (snd (write_gatt_char data response env st)).
Hypothesis R_start : forall env st, R st (snd (start_notify env st)).
Hypothesis R_stop : forall env st, R st (snd (stop_notify env st)).

Lemma bind_keeps {A B} (m : M A) (f : A -> M B) :
  (forall env st, R st (snd (m env st))) ->
  (forall a env st, R st (snd (f a env st))) ->
  forall env st, R st (snd (bind m f env st)).
Proof.
  intros Hm Hf env st. unfold bind. specialize (Hm env st).
  destruct (m env st) as [[a | e |] st']; cbn [snd] in *; try assumption.
  eapply R_trans; [exact Hm | apply Hf].
Qed.

Lemma lift_keeps {A} (e : Exn) (o : option A) (env : Env) (st : State) :
  R st (snd (lift e o env st)).
Proof. unfold lift. destruct o; apply R_refl. Qed.

Lemma for_each_m_keeps {A} (body : A -> M unit) (xs : list A) :
  (forall x env st, R st (snd (body x env st))) ->
  forall env st, R st (snd (for_each_m xs body env st)).
Proof.
  intros Hbody. induction xs as [| x xs IH]; cbn [for_each_m].
  - intros env st. apply R_refl.
  - apply bind_keeps; [apply Hbody | intros _; exact IH].
Qed.

Lemma poll_until_keeps (found : State -> bool) (timeout start : Z)
    (on_found on_timeout : M bool) (fuel : nat) :
  (forall env st, R st (snd (on_found env st))) ->
  (forall env st, R st (snd (on_timeout env st))) ->
  forall env st,
    R st (snd (poll_until fuel found timeout start on_found on_timeout env st)).
Proof.
  intros Hf Ht. induction fuel as [| fuel IH]; intros env st; cbn [poll_until];
    destruct (window_open (clock st) start timeout); try apply Ht;
    destruct (found st); try apply Hf.
  - apply R_refl.
  - rewrite bind_sleep. eapply R_trans; [apply R_sleep | apply IH].
Qed.

Lemma wait_for_response_keeps `{U : Unicode} (expected : string) (timeout : Z) (env : Env)
    (st : State) :
  R st (snd (wait_for_response expected timeout env st)).
Proof.
  revert env st. unfold wait_for_response.
  apply bind_keeps; [apply R_start | intros _].
  intros env st. rewrite bind_time, wait_loop_poll_until.
  apply poll_until_keeps;
    (apply bind_keeps; [apply R_stop | intros _ env' st'; apply R_refl]).
Qed.

Lemma await_completion_keeps `{U : Unicode} (env : Env) (st : State) :
  R st (snd (await_completion env st)).
Proof.
  revert env st. unfold await_completion.
  apply bind_keeps; [apply R_print | intros _].
  intros env st. rewrite bind_time, completion_loop_poll_until.
  apply poll_until_keeps;
    (apply bind_keeps; [apply R_stop | intros _];
     apply bind_keeps; [apply R_print | intros _ env' st'; apply R_refl]).
Qed.

Lemma send_chunks_keeps (chunks : list (list Z)) (env : Env) (st : State) :
  R st (snd (send_chunks chunks env st)).
Proof.
  revert env st. unfold send_chunks.
  apply bind_keeps; [apply R_start | intros _].
  apply bind_keeps; [apply R_print | intros _].
  apply bind_keeps.
  - apply for_each_m_keeps. intros [i chunk].
    apply bind_keeps.
    + intros env st. destruct (i mod 50 =? 0)%nat; [apply R_print | apply R_refl].
    + intros _. apply bind_keeps; [apply R_write | intros _]. apply R_sleep.
  - intros _. apply bind_keeps; [apply R_print | intros _]. apply R_print.
Qed.

Lemma send_command_keeps `{Pillow} (img : Image) (chunk_size : Z) (env : Env)
    (st : State) :
  R st (snd (send_command img chunk_size env st)).
Proof.
  revert env st. unfold send_command.
  apply bind_keeps; [apply R_print | intros _].
  destruct (load_and_prepare_image img DEVICE_WIDTH DEVICE_HEIGHT) as [out img'].
  apply bind_keeps; [apply R_print | intros _].
  apply bind_keeps; [apply lift_keeps | intros rgb565_data].
  apply bind_keeps; [apply R_print | intros _].
  apply bind_keeps; [apply lift_keeps | intros chunks].
  apply bind_keeps; [apply R_print | intros _].
  apply bind_keeps; [apply R_print | intros _].
  apply bind_keeps; [apply lift_keeps | intros command].
  apply bind_keeps; [apply R_write | intros _ env st; apply R_refl].
Qed.

Lemma upload_image_keeps `{Pillow} `{U : Unicode} (img : Image) (chunk_size : Z) (env : Env)
    (st : State) :
  R st (snd (upload_image img chunk_size env st)).
Proof.
  revert env st. unfold upload_image.
  apply bind_keeps; [apply send_command_keeps | intros chunks].
  apply bind_keeps; [apply wait_for_response_keeps | intros ok].
  destruct ok; cbn [negb].
  - apply bind_keeps; [apply R_print | intros _].
    apply bind_keeps; [apply send_chunks_keeps | intros _].
    apply await_completion_keeps.
  - apply bind_keeps; [apply R_print | intros _ env st; apply R_refl].
Qed.

End SessionInvariant.

(** ** The notification log is append-only *)

Lemma log_grows_trans (a b c : State) :
  (exists new, responses b = responses a ++ new) ->
  (exists new, responses c = responses b ++ new) ->
  exists new, responses c = responses a ++ new.
Proof.
  intros [n1 H1] [n2 H2]. exists (n1 ++ n2). rewrite H2, H1, app_assoc. reflexivity.
Qed.

Lemma log_grows_refl (st : State) : exists new, responses st = responses st ++ new.
Proof. exists []. symmetry. apply app_nil_r. Qed.

(** Nothing in a session removes or rewrites an entry of [self.responses]:
    however [upload_image] ends, by a return or by an exception, the log it
    leaves is the log it found followed by what arrived.  In particular an
    entry that opened the ready gate is still there when the completion
    wait looks for "done". *)
Theorem upload_image_log_append_only `{Pillow} `{U : Unicode} (img : Image) (chunk_size : Z)
    (env : Env) (st : State) :
  (exists new,
     responses (snd (upload_image img chunk_size env st)) = responses st ++ new) /\
  forall word, log_has word st = true ->
    log_has word (snd (upload_image img chunk_size env st)) = true.
Proof.
  assert (Hgrow : exists new,
            responses (snd (upload_image img chunk_size env st))
            = responses st ++ new).
  { apply (upload_image_keeps
             (fun a b => exists new, responses b = responses a ++ new)).
    - apply log_grows_refl.
    - apply log_grows_trans.
    - intros lines env' st'. exists []. symmetry. apply app_nil_r.
    - intros ms env' st'. apply sleep_run.
    - intros data response env' st'. apply write_run.
    - intros env' st'. apply start_notify_run.
    - intros env' st'. apply stop_notify_run. }
  split; [exact Hgrow |].
  intros word Hhas. destruct Hgrow as [new Hnew].
  exact (log_has_app word st _ new Hnew Hhas).
Qed.

(** The same for [wait_for_response] on its own. *)
Lemma wait_for_response_log_grows `{U : Unicode} (expected : string) (timeout : Z)
    (env : Env) (st : State) :
  exists new,
    responses (snd (wait_for_response expected timeout env st))
    = responses st ++ new.
Proof.
  apply (wait_for_response_keeps
           (fun a b => exists new, responses b = responses a ++ new)).
  - apply log_grows_refl.
  - apply log_grows_trans.
  - intros ms env' st'. apply sleep_run.
  - intros env' st'. apply start_notify_run.
  - intros env' st'. apply stop_notify_run.
Qed.

(* ================================================================== *)
(** ** The transfer: what a completed chunk loop has done *)

Lemma chunk_loop_returns (env : Env) (n : nat) (items : list (nat * list Z))
    (st s' : State) :
  for_each_m items (fun '(i, chunk) =>
      (if (i mod 50 =? 0)%nat then print [LProgress i n] else ret tt) ;;
      write_gatt_char chunk false ;;
      sleep 10) env st = (Ok tt, s') ->
  transport s' = transport st ++ map (fun ic => EvWrite (snd ic) false) items /\
  subscribed s' = subscribed st /\
  awaits s' = (awaits st + 2 * List.length items)%nat /\
  clock st + 10 * Z.of_nat (List.length items) <= clock s'.
Proof.
  revert st. induction items as [| [i chunk] items IH]; intros st Hrun.
  - cbn [for_each_m] in Hrun. unfold ret in Hrun. injection Hrun as <-.
    cbn [map List.length]. rewrite app_nil_r. conj; try reflexivity; lia.
  - cbn [for_each_m] in Hrun.
    apply bind_returns in Hrun. destruct Hrun as ([] & s3 & Hbody & Hrest).
    apply bind_returns in Hbody. destruct Hbody as ([] & s1 & Hpr & Hbody).
    apply bind_returns in Hbody. destruct Hbody as ([] & s2 & Hw & Hsl).
    assert (H1 : transport s1 = transport st /\ subscribed s1 = subscribed st /\
                 awaits s1 = awaits st /\ clock s1 = clock st).
    { destruct (i mod 50 =? 0)%nat; unfold print, ret in Hpr;
        injection Hpr as <-; conj; reflexivity. }
    destruct H1 as (Ht1 & Hs1 & Ha1 & Hc1).
    destruct (write_run chunk false env s1) as (Ha2 & Hs2 & Hc2 & _ & Hwr).
    cbv zeta in Ha2, Hs2, Hc2, Hwr. rewrite Hw in Ha2, Hs2, Hc2, Hwr.
    cbn [fst snd] in Ha2, Hs2, Hc2, Hwr.
    destruct (fails (env (awaits s1))); destruct Hwr as [Efst Ht2];
      [discriminate Efst |].
    destruct (sleep_run 10 env s2) as (_ & Hc3 & Ha3 & Hs3 & Ht3 & _).
    rewrite Hsl in Hc3, Ha3, Hs3, Ht3. cbn [snd] in Hc3, Ha3, Hs3, Ht3.
    destruct (IH s3 Hrest) as (Ht & Hs & Ha & Hc).
    cbn [map snd List.length]. conj.
    + rewrite Ht, Ht3, Ht2, Ht1, <- app_assoc. reflexivity.
    + congruence.
    + lia.
    + lia.
Qed.

Lemma send_chunks_returns (env : Env) (chunks : list (list Z)) (st s' : State) :
  send_chunks chunks env st = (Ok tt, s') ->
  transport s'
    = transport st ++ EvStartNotify :: map (fun c => EvWrite c false) chunks /\
  subscribed s' = true /\
  awaits s' = (awaits st + 1 + 2 * List.length chunks)%nat /\
  clock st + 10 * Z.of_nat (List.length chunks) <= clock s'.
Proof.
  intros Hrun. unfold send_chunks in Hrun.
  apply bind_returns in Hrun. destruct Hrun as ([] & s1 & Hstart & Hrun).
  rewrite bind_print in Hrun.
  apply bind_returns in Hrun. destruct Hrun as ([] & s2 & Hloop & Hrun).
  unfold bind, print in Hrun. injection Hrun as <-.
  cbn [transport subscribed awaits clock].
  destruct (start_notify_run env st) as (Ha1 & Hc1 & _ & Hst).
  cbv zeta in Ha1, Hc1, Hst. rewrite Hstart in Ha1, Hc1, Hst.
  cbn [fst snd] in Ha1, Hc1, Hst.
  destruct (fails (env (awaits st))); destruct Hst as (Efst & Ht1 & Hs1);
    [discriminate Efst |].
  apply chunk_loop_returns in Hloop.
  cbn [print snd transport subscribed awaits clock] in Hloop.
  destruct Hloop as (Ht2 & Hs2 & Ha2 & Hc2).
  unfold Py.enumerate in Ht2, Ha2, Hc2.
  rewrite (map_snd_enumerate (fun c => EvWrite c false)) in Ht2.
  rewrite length_combine, length_seq, Nat.min_id in Ha2, Hc2.
  conj.
  - rewrite Ht2, Ht1, <- app_assoc. reflexivity.
  - congruence.
  - lia.
  - lia.
Qed.

Lemma writes_of_chunks (chunks : list (list Z)) :
  writes_of (map (fun chunk => EvWrite chunk false) chunks)
  = map (fun chunk => (chunk, false)) chunks.
Proof.
  induction chunks as [| c chunks IH]; [reflexivity |].
  cbn [map]. unfold writes_of in *. cbn [flat_map app]. f_equal. exact IH.
Qed.

(** When the chunk loop of [upload_image] completes, the client calls it
    added are exactly one [start_notify] followed by one write per chunk,
    in order and without response; the subscription is active; each chunk
    cost two awaits (the write and the 10 ms pause), so that at least 10 ms
    per chunk have passed. *)
Theorem send_chunks_paced (env : Env) (chunks : list (list Z)) (st s' : State) :
  send_chunks chunks env st = (Ok tt, s') ->
  transport s'
    = transport st
        ++ EvStartNotify :: map (fun chunk => EvWrite chunk false) chunks /\
  writes_of (skipn (List.length (transport st)) (transport s'))
    = map (fun chunk => (chunk, false)) chunks /\
  subscribed s' = true /\
  awaits s' = (awaits st + 1 + 2 * List.length chunks)%nat /\
  10 * Z.of_nat (List.length chunks) <= clock s' - clock st.
Proof.
  intros Hrun. destruct (send_chunks_returns env chunks st s' Hrun)
    as (Ht & Hs & Ha & Hc).
  conj; try assumption; [| lia].
  rewrite Ht, skipn_app, Nat.sub_diag, skipn_all. cbn [skipn app].
  unfold writes_of at 1. cbn [flat_map app]. apply writes_of_chunks.
Qed.

Lemma send_chunks_paced_witness :
  exists s',
    send_chunks [[3; 2]; [1]] Examples.env_busy Examples.fresh = (Ok tt, s') /\
    transport s' = [EvStartNotify; EvWrite [3; 2] false; EvWrite [1] false] /\
    awaits s' = 5%nat /\ 20 <= clock s' - 0.
Proof.
  eexists. split; [vm_compute; reflexivity |].
  destruct (send_chunks_paced Examples.env_busy [[3; 2]; [1]] Examples.fresh
              (snd (send_chunks [[3; 2]; [1]] Examples.env_busy Examples.fresh)))
    as (Ht & _ & _ & Ha & Hc); [vm_compute; reflexivity |].
  split; [exact Ht |]. split; [exact Ha | exact Hc].
Defined.

(** ** End to end: what a successful upload has put on the wire *)

(** When [upload_image] returns [True], the client calls of the session are
    exactly: the command frame, one subscribe/unsubscribe pair (the ready
    wait), a second subscribe, every chunk in order, and the final
    unsubscribe.  The chunks are those of the prepared image: their
    concatenation, reversed, is its RGB565 buffer. *)
Theorem upload_image_wire `{Pillow} `{U : Unicode} (img : Image) (chunk_size : Z) (env : Env)
    (st s' : State) :
  upload_image img chunk_size env st = (Ok true, s') ->
  exists data chunks,
    rgb_to_rgb565 (snd (load_and_prepare_image img DEVICE_WIDTH DEVICE_HEIGHT))
      = Some data /\
    prepare_chunks data chunk_size = Some chunks /\
    1 <= chunk_size < 256 /\
    transport s'
    = transport st
        ++ [EvWrite (spec_command_frame chunk_size) false;
            EvStartNotify; EvStopNotify; EvStartNotify]
        ++ map (fun chunk => EvWrite chunk false) chunks ++ [EvStopNotify] /\
    rev (List.concat chunks) = data.
Proof.
  intros Hrun. unfold upload_image in Hrun.
  apply bind_returns in Hrun. destruct Hrun as (chunks & s0 & Ecmd & Hrun).
  destruct (send_command_run img chunk_size env st) as (_ & Hcmd).
  cbv zeta in Hcmd. rewrite Ecmd in Hcmd. cbn [fst snd] in Hcmd.
  destruct Hcmd as ((data & Hdata & Hchunks) & Hrange & _ & Ht0).
  apply bind_returns in Hrun. destruct Hrun as (ok & sw & Ewait & Hrun).
  destruct (wait_for_response_returns _ _ _ _ _ _ Ewait) as (_ & Htw).
  destruct ok; cbn [negb] in Hrun.
  2:{ unfold bind, print, ret in Hrun. discriminate Hrun. }
  rewrite bind_print in Hrun.
  apply bind_returns in Hrun. destruct Hrun as ([] & s2 & Esend & Hrun).
  apply send_chunks_returns in Esend. destruct Esend as (Ht2 & _).
  cbn [print snd transport] in Ht2.
  apply await_completion_returns in Hrun. destruct Hrun as (_ & _ & Ht & _).
  assert (Hpos : 1 <= chunk_size).
  { destruct (Z.eq_dec chunk_size 0) as [-> | Hnz]; [| lia].
    unfold prepare_chunks in Hchunks. cbn in Hchunks. discriminate Hchunks. }
  exists data, chunks. conj; try assumption; try lia.
  - rewrite Ht, Ht2, Htw, Ht0, <- !app_assoc. reflexivity.
  - destruct (prepare_chunks_pieces data chunk_size Hpos)
      as (chunks' & Hrun' & Hrev & _).
    rewrite Hchunks in Hrun'. injection Hrun' as <-. exact Hrev.
Qed.

Lemma upload_image_wire_witness :
  exists data chunks,
    rgb_to_rgb565 (Examples.solid 255 128 7) = Some data /\
    prepare_chunks data 80 = Some chunks /\
    rev (List.concat chunks) = data.
Proof.
  destruct (@upload_image_wire Examples.nearest Examples.lower_kelvin (Examples.solid 255 128 7) 80
              Examples.env_ok_done Examples.fresh
              (snd (@upload_image Examples.nearest Examples.lower_kelvin (Examples.solid 255 128 7) 80
                      Examples.env_ok_done Examples.fresh)))
    as (data & chunks & Hdata & Hchunks & _ & _ & Hrev).
  - apply run_eq. vm_compute. reflexivity.
  - exists data, chunks. split; [exact Hdata |]. split; [exact Hchunks | exact Hrev].
Defined.

(* ================================================================== *)
(** ** [wait_for_response]: what its answer means *)

(** How a returning wait went: it subscribed, polled [k] times, and left
    at the first poll that either found the response inside the window or
    saw the window closed. *)
Lemma wait_for_response_cases `{U : Unicode} (expected : string) (timeout : Z) (env : Env)
    (st s' : State) (b : bool) :
  wait_for_response expected timeout env st = (Ok b, s') ->
  exists s1 k,
    start_notify env st = (Ok tt, s1) /\
    (forall j, (j < k)%nat ->
       window_open (clock (poll env j s1)) (clock s1) timeout = true /\
       log_has (str_lower expected) (poll env j s1) = false) /\
    ((b = true /\
      window_open (clock (poll env k s1)) (clock s1) timeout = true /\
      log_has (str_lower expected) (poll env k s1) = true)
     \/ (b = false /\
         window_open (clock (poll env k s1)) (clock s1) timeout = false)) /\
    stop_notify env (poll env k s1) = (Ok tt, s').
Proof.
  intros Hrun.
  assert (Hstart : exists s1, start_notify env st = (Ok tt, s1)).
  { unfold wait_for_response in Hrun. apply bind_returns in Hrun.
    destruct Hrun as ([] & s1 & Hstart & _). exists s1. exact Hstart. }
  destruct Hstart as [s1 Hstart]. exists s1.
  destruct (wait_for_response_run expected timeout env st s1 Hstart)
    as (k & Hbefore & Hat).
  exists k. split; [exact Hstart |]. split; [exact Hbefore |].
  destruct Hat as [(Hopen & Hfound & E) | (Hclosed & E)];
    rewrite E in Hrun; apply bind_returns in Hrun;
    destruct Hrun as ([] & s2 & Hstop & Hret);
    unfold ret in Hret; injection Hret as <- <-; (split; [| exact Hstop]).
  - left. auto.
  - right. auto.
Qed.

(** [wait_for_response] answers [True] only if the log it leaves holds a
    response that contains the expected text, case-insensitively; it answers
    [False] only after at least [timeout] ms; and it sleeps at most once per
    100 ms of the window and once more (the pass that the rounding of the
    clock difference can add at the boundary): the two client calls apart
    it makes no more than timeout / 100 + 1 awaits. *)
Theorem wait_for_response_sound `{U : Unicode} (expected : string) (timeout : Z) (env : Env)
    (st s' : State) (b : bool) :
  wait_for_response expected timeout env st = (Ok b, s') ->
  (b = true -> log_has (str_lower expected) s' = true) /\
  (b = false -> timeout <= clock s' - clock st) /\
  Z.of_nat (awaits s')
    <= Z.of_nat (awaits st) + 2 + Z.max 0 (timeout / 100 + 1).
Proof.
  intros Hrun.
  destruct (wait_for_response_cases expected timeout env st s' b Hrun)
    as (s1 & k & Hstart & Hbefore & Hat & Hstop).
  destruct (start_notify_run env st) as (Ha1 & Hc1 & _).
  cbv zeta in Ha1, Hc1. rewrite Hstart in Ha1, Hc1. cbn [snd] in Ha1, Hc1.
  destruct (stop_notify_run env (poll env k s1)) as (Ha2 & Hc2 & (new & Hr2) & _).
  cbv zeta in Ha2, Hc2, Hr2. rewrite Hstop in Ha2, Hc2, Hr2.
  cbn [snd] in Ha2, Hc2, Hr2.
  destruct (poll_frame env k s1) as (Hck & Hak & _).
  conj.
  - intros ->. destruct Hat as [(_ & _ & Hfound) | (Hb & _)]; [| discriminate Hb].
    exact (log_has_app _ _ _ new Hr2 Hfound).
  - intros ->. destruct Hat as [(Hb & _) | (_ & Hclosed)]; [discriminate Hb |].
    apply window_open_ge in Hclosed. lia.
  - assert (Hk : Z.of_nat k <= Z.max 0 (timeout / 100 + 1)).
    { destruct k as [| k']; [lia |].
      destruct (Hbefore k') as [Hopen _]; [lia |].
      apply window_open_le in Hopen.
      destruct (poll_frame env k' s1) as (Hck' & _).
      assert (Z.of_nat k' <= timeout / 100)
        by (apply Z.div_le_lower_bound; lia).
      lia. }
    lia.
Qed.

Lemma wait_for_response_sound_witness :
  exists s',
    @wait_for_response Examples.lower_kelvin "OK" 300 Examples.env_busy Examples.fresh = (Ok false, s') /\
    300 <= clock s' - 0 /\ Z.of_nat (awaits s') <= 6.
Proof.
  eexists. split; [vm_compute; reflexivity |].
  destruct (@wait_for_response_sound Examples.lower_kelvin "OK" 300 Examples.env_busy Examples.fresh
              (snd (@wait_for_response Examples.lower_kelvin "OK" 300 Examples.env_busy Examples.fresh))
              false) as (_ & Hfalse & Hawaits);
    [vm_compute; reflexivity |].
  split; [apply Hfalse; reflexivity | exact Hawaits].
Defined.

(** With a timeout of zero (or less) the loop body never runs: the wait
    answers [False] after the two client calls, without a single sleep,
    even when the log already holds the expected response. *)
Theorem wait_for_response_no_window `{U : Unicode} (expected : string) (timeout : Z) (env : Env)
    (st s' : State) (b : bool) :
  timeout <= 0 ->
  wait_for_response expected timeout env st = (Ok b, s') ->
  b = false /\ awaits s' = (awaits st + 2)%nat /\
  transport s' = transport st ++ [EvStartNotify; EvStopNotify].
Proof.
  intros Htimeout Hrun. unfold wait_for_response in Hrun.
  apply bind_returns in Hrun. destruct Hrun as ([] & s1 & Hstart & Hrun).
  rewrite bind_time in Hrun. cbn [wait_loop] in Hrun.
  rewrite window_open_start in Hrun.
  destruct (Z.ltb_spec 0 timeout) as [Hopen | _]; [lia |].
  apply bind_returns in Hrun. destruct Hrun as ([] & s2 & Hstop & Hret).
  unfold ret in Hret. injection Hret as <- <-.
  destruct (start_notify_run env st) as (Ha1 & _ & _ & H1).
  cbv zeta in Ha1, H1. rewrite Hstart in Ha1, H1. cbn [fst snd] in Ha1, H1.
  destruct (fails (env (awaits st))); destruct H1 as (E1 & Ht1 & _);
    [discriminate E1 |].
  destruct (stop_notify_run env s1) as (Ha2 & _ & _ & H2).
  cbv zeta in Ha2, H2. rewrite Hstop in Ha2, H2. cbn [fst snd] in Ha2, H2.
  destruct (fails (env (awaits s1))); destruct H2 as (E2 & Ht2 & _);
    [discriminate E2 |].
  conj; [reflexivity | lia |].
  rewrite Ht2, Ht1, <- app_assoc. reflexivity.
Qed.

Lemma wait_for_response_no_window_witness :
  exists s',
    @wait_for_response Examples.lower_kelvin "OK" 0 Examples.env_busy
      (_notification_handler "OK" Examples.fresh) = (Ok false, s') /\
    awaits s' = 2%nat.
Proof.
  eexists. split; [vm_compute; reflexivity |].
  destruct (@wait_for_response_no_window Examples.lower_kelvin "OK" 0 Examples.env_busy
              (_notification_handler "OK" Examples.fresh)
              (snd (@wait_for_response Examples.lower_kelvin "OK" 0 Examples.env_busy
                      (_notification_handler "OK" Examples.fresh))) false)
    as (_ & Ha & _); [lia | vm_compute; reflexivity | exact Ha].
Defined.

(** The log is never cleared, so a wait can be answered by an entry that
    was there before it started: with a matching entry in the log at entry
    the wait answers [True] at its first look, without a single sleep. *)
Theorem wait_for_response_stale_entry `{U : Unicode} (expected : string) (timeout : Z)
    (env : Env) (st s' : State) (b : bool) :
  0 < timeout ->
  log_has (str_lower expected) st = true ->
  wait_for_response expected timeout env st = (Ok b, s') ->
  b = true /\ awaits s' = (awaits st + 2)%nat.
Proof.
  intros Htimeout Hhas Hrun.
  destruct (wait_for_response_cases expected timeout env st s' b Hrun)
    as (s1 & k & Hstart & Hbefore & Hat & Hstop).
  destruct (start_notify_run env st) as (Ha1 & _ & (new & Hr1) & _).
  cbv zeta in Ha1, Hr1. rewrite Hstart in Ha1, Hr1. cbn [snd] in Ha1, Hr1.
  pose proof (log_has_app _ _ _ new Hr1 Hhas) as Hhas1.
  assert (Hk : k = 0%nat).
  { destruct k as [| k']; [reflexivity |].
    destruct (Hbefore 0%nat) as [_ Hnot]; [lia |].
    cbn [poll] in Hnot. congruence. }
  subst k. cbn [poll] in Hat, Hstop.
  destruct (stop_notify_run env s1) as (Ha2 & _).
  cbv zeta in Ha2. rewrite Hstop in Ha2. cbn [snd] in Ha2.
  split; [| lia].
  destruct Hat as [(Hb & _) | (_ & Hclosed)]; [exact Hb |].
  rewrite window_open_start in Hclosed.
  destruct (Z.ltb_spec 0 timeout); [discriminate Hclosed | lia].
Qed.

Lemma wait_for_response_stale_entry_witness :
  exists s',
    @wait_for_response Examples.lower_kelvin "ok" 10000 Examples.env_busy
      (_notification_handler "OK" Examples.fresh) = (Ok true, s') /\
    awaits s' = 2%nat.
Proof.
  eexists. split; [vm_compute; reflexivity |].
  destruct (@wait_for_response_stale_entry Examples.lower_kelvin "ok" 10000 Examples.env_busy
              (_notification_handler "OK" Examples.fresh)
              (snd (@wait_for_response Examples.lower_kelvin "ok" 10000 Examples.env_busy
                      (_notification_handler "OK" Examples.fresh))) true)
    as (_ & Ha); [lia | reflexivity | vm_compute; reflexivity | exact Ha].
Defined.

(* ================================================================== *)
(** ** Every session ends *)

Lemma bind_total {A B} (m : M A) (f : A -> M B) :
  (forall env st, fst (m env st) <> Diverge) ->
  (forall a env st, fst (f a env st) <> Diverge) ->
  forall env st, fst (bind m f env st) <> Diverge.
Proof.
  intros Hm Hf env st. unfold bind. specialize (Hm env st).
  destruct (m env st) as [[a | e |] s1]; cbn [fst] in *;
    [apply Hf | discriminate | contradiction Hm; reflexivity].
Qed.

Lemma print_total (lines : list Line) (env : Env) (st : State) :
  fst (print lines env st) <> Diverge.
Proof. discriminate. Qed.

Lemma ret_total {A} (a : A) (env : Env) (st : State) : fst (ret a env st) <> Diverge.
Proof. discriminate. Qed.

Lemma sleep_total (ms : Z) (env : Env) (st : State) :
  fst (sleep ms env st) <> Diverge.
Proof. discriminate. Qed.

Lemma write_total (data : list Z) (response : bool) (env : Env) (st : State) :
  fst (write_gatt_char data response env st) <> Diverge.
Proof. unfold write_gatt_char. destruct (fails _); discriminate. Qed.

Lemma start_notify_total (env : Env) (st : State) :
  fst (start_notify env st) <> Diverge.
Proof. unfold start_notify. destruct (fails _); discriminate. Qed.

Lemma stop_notify_total (env : Env) (st : State) :
  fst (stop_notify env st) <> Diverge.
Proof. unfold stop_notify. destruct (fails _); discriminate. Qed.

Lemma for_each_m_total {A} (body : A -> M unit) (xs : list A) :
  (forall x env st, fst (body x env st) <> Diverge) ->
  forall env st, fst (for_each_m xs body env st) <> Diverge.
Proof.
  intros Hbody. induction xs as [| x xs IH]; cbn [for_each_m].
  - intros env st. apply ret_total.
  - apply bind_total; [apply Hbody | intros _; exact IH].
Qed.

(** A waiting loop with one unit of fuel per millisecond of window leaves
    through one of its two exits. *)
Lemma poll_until_total (found : State -> bool) (timeout start : Z)
    (on_found on_timeout : M bool) (env : Env) (fuel : nat) (st : State) :
  timeout - (clock st - start) < Z.of_nat fuel ->
  (forall env st, fst (on_found env st) <> Diverge) ->
  (forall env st, fst (on_timeout env st) <> Diverge) ->
  fst (poll_until fuel found timeout start on_found on_timeout env st) <> Diverge.
Proof.
  intros Hfuel Hf Ht.
  destruct (poll_until_stops found timeout start on_found on_timeout env fuel st
              Hfuel) as (k & _ & [(_ & _ & E) | (_ & E)]); rewrite E;
    [apply Hf | apply Ht].
Qed.

Lemma wait_for_response_total `{U : Unicode} (expected : string) (timeout : Z) (env : Env)
    (st : State) :
  fst (wait_for_response expected timeout env st) <> Diverge.
Proof.
  revert env st. unfold wait_for_response.
  apply bind_total; [apply start_notify_total | intros _].
  intros env st. rewrite bind_time, wait_loop_poll_until.
  apply poll_until_total; [lia | |];
    (apply bind_total; [apply stop_notify_total | intros _; apply ret_total]).
Qed.

Lemma await_completion_total `{U : Unicode} (env : Env) (st : State) :
  fst (await_completion env st) <> Diverge.
Proof.
  revert env st. unfold await_completion.
  apply bind_total; [apply print_total | intros _].
  intros env st. rewrite bind_time, completion_loop_poll_until.
  apply poll_until_total; [lia | |];
    (apply bind_total; [apply stop_notify_total | intros _];
     apply bind_total; [apply print_total | intros _; apply ret_total]).
Qed.

Lemma send_chunks_total (chunks : list (list Z)) (env : Env) (st : State) :
  fst (send_chunks chunks env st) <> Diverge.
Proof.
  revert env st. unfold send_chunks.
  apply bind_total; [apply start_notify_total | intros _].
  apply bind_total; [apply print_total | intros _].
  apply bind_total.
  - apply for_each_m_total. intros [i chunk].
    apply bind_total.
    + intros env st. destruct (i mod 50 =? 0)%nat; discriminate.
    + intros _. apply bind_total; [apply write_total | intros _].
      apply sleep_total.
  - intros _. apply bind_total; [apply print_total | intros _].
    apply print_total.
Qed.

Lemma upload_image_total `{Pillow} `{U : Unicode} (img : Image) (chunk_size : Z) (env : Env)
    (st : State) :
  fst (upload_image img chunk_size env st) <> Diverge.
Proof.
  revert env st. unfold upload_image. apply bind_total.
  - intros env st. destruct (send_command_run img chunk_size env st) as (_ & Hcmd).
    cbv zeta in Hcmd. intros E. rewrite E in Hcmd. exact Hcmd.
  - intros chunks.
    apply bind_total; [apply wait_for_response_total | intros ok].
    destruct ok; cbn [negb].
    + apply bind_total; [apply print_total | intros _].
      apply bind_total; [apply send_chunks_total | intros _].
      apply await_completion_total.
    + apply bind_total; [apply print_total | intros _; apply ret_total].
Qed.

(** [upload_image] always ends, by a return or by an exception, whatever
    the device sends and whenever: each of its two waiting loops sleeps
    100 ms per pass and is left once its window (10 s, 20 s) has closed, and
    the chunk loop runs once per chunk.  The same holds of
    [wait_for_response] with any timeout. *)
Theorem upload_image_terminates `{Pillow} `{U : Unicode} (img : Image) (chunk_size : Z)
    (env : Env) (st : State) :
  ((exists r, fst (upload_image img chunk_size env st) = Ok r) \/
   (exists e, fst (upload_image img chunk_size env st) = Raise e)) /\
  forall expected timeout,
    (exists r, fst (wait_for_response expected timeout env st) = Ok r) \/
    (exists e, fst (wait_for_response expected timeout env st) = Raise e).
Proof.
  split.
  - pose proof (upload_image_total img chunk_size env st) as Htot.
    destruct (fst (upload_image img chunk_size env st)) as [r | e |];
      [left; exists r; reflexivity | right; exists e; reflexivity
      | contradiction Htot; reflexivity].
  - intros expected timeout.
    pose proof (wait_for_response_total expected timeout env st) as Htot.
    destruct (fst (wait_for_response expected timeout env st)) as [r | e |];
      [left; exists r; reflexivity | right; exists e; reflexivity
      | contradiction Htot; reflexivity].
Qed.

(* ================================================================== *)
(** ** A chunk size the command frame cannot carry *)

(** The chunk size travels in one byte of the command frame and steps the
    chunk loop.  With a chunk size outside 1..255 [upload_image] raises
    before it has made any client call ([range] refuses the step 0,
    [bytes] refuses a value outside range(256)): nothing is written, no
    await has happened and no subscription is left behind. *)
Theorem upload_image_bad_chunk_size `{Pillow} `{U : Unicode} (img : Image) (chunk_size : Z)
    (env : Env) (st : State) :
  chunk_size <= 0 \/ 256 <= chunk_size ->
  exists e s',
    upload_image img chunk_size env st = (Raise e, s') /\
    e <> BleakError /\
    transport s' = transport st /\
    awaits s' = awaits st /\
    subscribed s' = subscribed st.
Proof.
  intros Hbad.
  assert (Hcmd : exists e s',
            send_command img chunk_size env st = (Raise e, s') /\
            e <> BleakError /\ transport s' = transport st /\
            awaits s' = awaits st /\ subscribed s' = subscribed st).
  { unfold send_command.
    destruct (load_and_prepare_image img DEVICE_WIDTH DEVICE_HEIGHT) as [out img'].
    rewrite !bind_print, bind_lift.
    destruct (rgb_to_rgb565 img') as [data |] eqn:Edata.
    2:{ eexists. eexists. split; [reflexivity |]. conj; try reflexivity. discriminate. }
    rewrite bind_print, bind_lift.
    destruct (prepare_chunks data chunk_size) as [chunks |] eqn:Echunks.
    2:{ eexists. eexists. split; [reflexivity |]. conj; try reflexivity. discriminate. }
    rewrite !bind_print, bind_lift, command_bytes.
    destruct ((0 <=? chunk_size) && (chunk_size <? 256)) eqn:Erange.
    2:{ eexists. eexists. split; [reflexivity |]. conj; try reflexivity. discriminate. }
    apply andb_true_iff in Erange. destruct Erange as [Hlo Hhi].
    apply Z.leb_le in Hlo. apply Z.ltb_lt in Hhi.
    assert (chunk_size = 0) as -> by lia.
    unfold prepare_chunks in Echunks. cbn in Echunks. discriminate Echunks. }
  destruct Hcmd as (e & s' & Ecmd & Hrest).
  exists e, s'. split; [| exact Hrest].
  unfold upload_image. apply (bind_raise _ _ _ _ _ _ Ecmd).
Qed.

Lemma upload_image_bad_chunk_size_witness :
  exists e s',
    @upload_image Examples.nearest Examples.lower_kelvin (Examples.solid 1 2 3) 256
      Examples.env_ok_done Examples.fresh = (Raise e, s') /\
    transport s' = [].
Proof.
  destruct (@upload_image_bad_chunk_size Examples.nearest Examples.lower_kelvin (Examples.solid 1 2 3)
              256 Examples.env_ok_done Examples.fresh)
    as (e & s' & Hrun & _ & Ht & _); [right; lia |].
  exists e, s'. split; [exact Hrun | exact Ht].
Defined.

(* ================================================================== *)
(** ** The command line *)

Lemma supported_ext (file_ext : string) :
  existsb (String.eqb file_ext) [".png"; ".jpg"; ".jpeg"]%string = true <->
  In file_ext [".png"; ".jpg"; ".jpeg"]%string.
Proof.
  rewrite existsb_exists. split.
  - intros (x & Hin & Heq). apply String.eqb_eq in Heq. subst x. exact Hin.
  - intros Hin. exists file_ext. split; [exact Hin | apply String.eqb_refl].
Qed.

(** [main] opens a connection exactly when: there is a command-line
    argument, it names an existing file, the file's extension, lower-cased
    by [str.lower], is one of .png, .jpg and .jpeg, and the scan found a
    Smart Sketch; it then connects to the address of the first such device,
    to upload the file named by the first argument. *)
Theorem main_connects_iff `{OsPath} `{U : Unicode} (argv : list string)
    (devices : list BLEDevice) (addr image_path : string) :
  snd (main argv devices) = Connect addr image_path <->
  (2 <= List.length argv)%nat /\
  image_path = nth 1 argv ""%string /\
  path_exists image_path = true /\
  In (str_lower (snd (splitext image_path))) [".png"; ".jpg"; ".jpeg"]%string /\
  exists d, find_smart_sketch devices = Some d /\ address d = addr.
Proof.
  unfold main.
  destruct (Nat.ltb_spec (List.length argv) 2) as [Hshort | Hlong].
  { cbn [snd]. split; [discriminate | intros (Hlen & _); lia]. }
  destruct (path_exists (nth 1 argv ""%string)) eqn:Hexists; cbn [negb].
  2:{ cbn [snd]. split; [discriminate |].
      intros (_ & -> & Hex & _). congruence. }
  destruct (existsb _ _) eqn:Hext; cbn [negb].
  2:{ cbn [snd]. split; [discriminate |].
      intros (_ & -> & _ & Hin & _). apply supported_ext in Hin. congruence. }
  apply supported_ext in Hext.
  destruct (find_smart_sketch devices) as [d |] eqn:Hfind; cbn [snd].
  - split.
    + intros E. injection E as <- <-. conj; try assumption; try reflexivity.
      exists d. split; reflexivity.
    + intros (_ & -> & _ & _ & d' & Hd' & <-). injection Hd' as <-. reflexivity.
  - split; [discriminate |]. intros (_ & _ & _ & _ & d' & Hd' & _). discriminate Hd'.
Qed.

Lemma main_connects_iff_witness :
  snd (@main Examples.one_file Examples.lower_kelvin
         ["upload_image.py"; "cat.PNG"]%string
         [ {| name := Some "OtherGadget"%string; address := "11:11"%string |};
           Examples.kelvin_device ])
  = Connect "66:66" "cat.PNG".
Proof.
  apply (@main_connects_iff Examples.one_file Examples.lower_kelvin).
  split; [simpl; lia |]. split; [reflexivity |]. split; [reflexivity |].
  split; [left; reflexivity |].
  exists Examples.kelvin_device. split; reflexivity.
Defined.

(** When [main] exits, the status is 1, and nothing it did depended on what
    a scan would have found: the arguments are checked before the scan. *)
Theorem main_rejects_before_scan `{OsPath} `{U : Unicode} (argv : list string)
    (devices : list BLEDevice) (code : Z) :
  snd (main argv devices) = SysExit code ->
  code = 1 /\ forall devices', main argv devices' = main argv devices.
Proof.
  unfold main.
  destruct (List.length argv <? 2)%nat.
  { cbn [snd]. intros E. injection E as <-. split; reflexivity. }
  destruct (negb (path_exists (nth 1 argv ""%string))).
  { cbn [snd]. intros E. injection E as <-. split; reflexivity. }
  destruct (negb (existsb _ _)).
  { cbn [snd]. intros E. injection E as <-. split; reflexivity. }
  destruct (find_smart_sketch devices); cbn [snd]; discriminate.
Qed.

Lemma main_rejects_before_scan_witness :
  @main Examples.one_file Examples.lower_kelvin
    ["upload_image.py"; "cat.gif"]%string Examples.scan
  = @main Examples.one_file Examples.lower_kelvin
      ["upload_image.py"; "cat.gif"]%string [].
Proof.
  destruct (@main_rejects_before_scan Examples.one_file Examples.lower_kelvin
              ["upload_image.py"; "cat.gif"]%string [] 1) as (_ & Hsame);
    [reflexivity | apply Hsame].
Defined.

(* ================================================================== *)
(** ** What the two ways of giving up mean *)

Lemma clock_le_trans (a b c : State) :
  clock a <= clock b -> clock b <= clock c -> clock a <= clock c.
Proof. lia. Qed.

(** The command phase does not turn the clock back. *)
Lemma send_command_clock `{Pillow} (img : Image) (chunk_size : Z) (env : Env)
    (st : State) :
  clock st <= clock (snd (send_command img chunk_size env st)).
Proof.
  apply (send_command_keeps (fun a b => clock a <= clock b)).
  - intros s. lia.
  - apply clock_le_trans.
  - intros lines env' st'. cbn [print snd clock]. lia.
  - intros data response env' st'. apply write_run.
Qed.

(** [upload_image] answers [False] only after the ready window of 10 s has
    passed, and then the client has seen three calls and no more: the
    command frame, the subscription and its release.  No chunk was written;
    the failure line is the last thing printed. *)
Theorem upload_image_false_means_timeout `{Pillow} `{U : Unicode} (img : Image) (chunk_size : Z)
    (env : Env) (st s' : State) :
  upload_image img chunk_size env st = (Ok false, s') ->
  10000 <= clock s' - clock st /\
  transport s'
  = transport st ++ [EvWrite (spec_command_frame chunk_size) false;
                     EvStartNotify; EvStopNotify] /\
  exists pre, console s' = pre ++ [LFailedOK].
Proof.
  intros Hrun.
  destruct (upload_image_returns img chunk_size env st s' false Hrun)
    as (_ & _ & pre & Hkind).
  destruct Hkind as [(_ & Hc & Ht) | [(Hr & _) | (Hr & _)]]; try discriminate.
  split; [| split; [exact Ht | exists pre; exact Hc]].
  unfold upload_image in Hrun.
  apply bind_returns in Hrun. destruct Hrun as (chunks & s0 & Ecmd & Hrun).
  pose proof (send_command_clock img chunk_size env st) as Hc0.
  rewrite Ecmd in Hc0. cbn [snd] in Hc0.
  apply bind_returns in Hrun. destruct Hrun as (ok & sw & Ewait & Hrun).
  destruct ok; cbn [negb] in Hrun.
  { rewrite bind_print in Hrun. apply bind_returns in Hrun.
    destruct Hrun as ([] & s2 & _ & Hrun).
    apply await_completion_returns in Hrun. destruct Hrun as (Hr & _).
    discriminate Hr. }
  unfold bind, print, ret in Hrun. injection Hrun as <-. cbn [clock].
  destruct (wait_for_response_cases "OK" 10000 env s0 sw false Ewait)
    as (s1 & k & Hstart & _ & Hat & Hstop).
  destruct Hat as [(Hb & _) | (_ & Hclosed)]; [discriminate Hb |].
  apply window_open_ge in Hclosed.
  destruct (start_notify_run env s0) as (_ & Hc1 & _).
  cbv zeta in Hc1. rewrite Hstart in Hc1. cbn [snd] in Hc1.
  destruct (stop_notify_run env (poll env k s1)) as (_ & Hc2 & _).
  cbv zeta in Hc2. rewrite Hstop in Hc2. cbn [snd] in Hc2.
  lia.
Qed.

Lemma upload_image_false_means_timeout_witness :
  10000 <= clock (snd (@upload_image Examples.nearest Examples.lower_kelvin (Examples.solid 1 2 3) 80
                         Examples.env_busy Examples.fresh)) - 0.
Proof.
  destruct (@upload_image_false_means_timeout Examples.nearest Examples.lower_kelvin
              (Examples.solid 1 2 3) 80 Examples.env_busy Examples.fresh
              (snd (@upload_image Examples.nearest Examples.lower_kelvin (Examples.solid 1 2 3) 80
                      Examples.env_busy Examples.fresh)))
    as (Hclock & _).
  - apply run_eq. vm_compute. reflexivity.
  - exact Hclock.
Defined.

(** The completion wait always answers [True], in one of two ways: with
    the confirmation block printed, and then the log it leaves holds a
    response containing "done"; or with the no-confirmation lines printed,
    and then the window of 20 s has passed.  Either way it has released the
    subscription, and it slept at most 201 times: once per 100 ms of the
    window, and once more when the rounding of the clock difference keeps
    the loop condition true at the boundary. *)
Theorem await_completion_sound `{U : Unicode} (env : Env) (st s' : State) (r : bool) :
  await_completion env st = (Ok r, s') ->
  r = true /\ subscribed s' = false /\
  Z.of_nat (awaits s') <= Z.of_nat (awaits st) + 1 + 201 /\
  exists pre,
    (console s' = pre ++ [LBlankRule; LUploaded; LRule; LCheckProjector] /\
     log_has "done" s' = true)
    \/ (console s' = pre ++ [LNoDone; LNormal] /\
        20000 <= clock s' - clock st).
Proof.
  intros Hrun.
  destruct (await_completion_run env st) as (k & Hbefore & Hat).
  cbv zeta in Hbefore, Hat.
  set (s3 := snd (print [LWaiting] env st)) in *.
  assert (Hk : Z.of_nat k <= 201).
  { destruct k as [| k']; [lia |].
    destruct (Hbefore k') as [Hopen _]; [lia |].
    apply window_open_le in Hopen.
    destruct (poll_frame env k' s3) as (Hck' & _). lia. }
  destruct (poll_frame env k s3) as (_ & Hak & _).
  assert (Hleave : forall lines,
            (stop_notify ;; print lines ;; ret true) env (poll env k s3)
            = (Ok r, s') ->
            r = true /\ subscribed s' = false /\
            Z.of_nat (awaits s') <= Z.of_nat (awaits st) + 1 + 201 /\
            clock (poll env k s3) <= clock s' /\
            (exists new, responses s' = responses (poll env k s3) ++ new) /\
            exists pre, console s' = pre ++ lines).
  { intros lines Hl.
    pose proof (stop_print_ret_returns lines true r env _ s' Hl)
      as (Hr & Hs & _ & Hnew & Hpre).
    apply bind_returns in Hl. destruct Hl as ([] & s4 & Hstop & Hl).
    destruct (stop_notify_run env (poll env k s3)) as (Ha & Hc & _).
    cbv zeta in Ha, Hc. rewrite Hstop in Ha, Hc. cbn [snd] in Ha, Hc.
    assert (Hs4 : awaits s' = awaits s4 /\ clock s' = clock s4).
    { unfold bind, print, ret in Hl. injection Hl as _ <-. split; reflexivity. }
    destruct Hs4 as [Ha' Hc'].
    change (awaits s3) with (awaits st) in Hak.
    conj; try assumption; lia. }
  destruct Hat as [(_ & Hfound & E) | (Hclosed & E)]; rewrite E in Hrun;
    apply Hleave in Hrun;
    destruct Hrun as (Hr & Hs & Ha & Hc & (new & Hnew) & (pre & Hpre));
    conj; try assumption; exists pre.
  - left. split; [exact Hpre |]. exact (log_has_app _ _ _ new Hnew Hfound).
  - right. split; [exact Hpre |].
    apply window_open_ge in Hclosed.
    change (clock s3) with (clock st) in Hclosed. lia.
Qed.

Lemma await_completion_sound_witness :
  exists s',
    @await_completion Examples.lower_kelvin Examples.env_busy Examples.fresh = (Ok true, s') /\
    Z.of_nat (awaits s') <= 202.
Proof.
  eexists. split; [vm_compute; reflexivity |].
  destruct (@await_completion_sound Examples.lower_kelvin Examples.env_busy Examples.fresh
              (snd (@await_completion Examples.lower_kelvin Examples.env_busy Examples.fresh)) true)
    as (_ & _ & Ha & _); [vm_compute; reflexivity | exact Ha].
Defined.
